(** * download_resources.py: a shallow embedding and its properties

    The script reads a CSV manifest of resources, classifies each link
    ([parse_github_url]), fetches it with retries ([download_github_file])
    and mirrors it into an archive tree and, for open-source licenses, a
    hosted tree ([process_resources]).

    Modelling conventions.
    - A Python [str] is a [list ascii]; a character stands for the code point
      of the same number (0..255).
    - Python integers are [Z].  A Python float is a binary64 number; the
      seconds handed to [time.sleep] are the rationals ([Q]) these numbers
      are, and the one sum the script computes on them is rounded as
      binary64 addition rounds it ([round64]).
    - The network, the random generator and the file system are an
      environment ([world]) the code queries; every effect is recorded in a
      trace of events.  Console output is not modelled. *)

From Stdlib Require Import Ascii String Bool Arith ZArith QArith Qround Qabs.
From Stdlib Require Import Lia Lqa List.
From Stdlib Require Floats.
Import ListNotations.

Local Close Scope Q_scope.
Local Open Scope string_scope.
Local Open Scope list_scope.
Local Open Scope nat_scope.

(** ** Strings *)

Definition str := list ascii.

(** A literal of the source. *)
Definition lit (x : string) : str := list_ascii_of_string x.

Definition str_eqb (a b : str) : bool :=
  if list_eq_dec ascii_dec a b then true else false.

Definition mem (a : ascii) (cs : list ascii) : bool :=
  existsb (Ascii.eqb a) cs.

(** Python's notion of white space ([str.isspace], the class [\s] of [re]
    on [str] patterns) below code point 256: TAB..CR, FS..US, space, NEL
    and NBSP. *)
Definition is_space (a : ascii) : bool :=
  let n := nat_of_ascii a in
  ((9 <=? n) && (n <=? 13)) || ((28 <=? n) && (n <=? 32))
  || (n =? 133) || (n =? 160).

(** [str.lower] and [str.upper], character by character.  Below 256 the
    lower-case map is exact.  The upper-case images of code points 181, 223
    and 255 lie outside the modelled range (or are two letters); the model
    leaves these three unchanged, which no comparison with an ASCII word can
    observe. *)
Definition lower_char (a : ascii) : ascii :=
  let n := nat_of_ascii a in
  if ((65 <=? n) && (n <=? 90))
     || ((192 <=? n) && (n <=? 222) && negb (n =? 215))
  then ascii_of_nat (n + 32) else a.

Definition upper_char (a : ascii) : ascii :=
  let n := nat_of_ascii a in
  if ((97 <=? n) && (n <=? 122))
     || ((224 <=? n) && (n <=? 254) && negb (n =? 247))
  then ascii_of_nat (n - 32) else a.

Definition lower (s : str) : str := map lower_char s.
Definition upper (s : str) : str := map upper_char s.

Fixpoint dropwhile (p : ascii -> bool) (s : str) : str :=
  match s with
  | [] => []
  | a :: s' => if p a then dropwhile p s' else s
  end.

Fixpoint takewhile (p : ascii -> bool) (s : str) : str :=
  match s with
  | [] => []
  | a :: s' => if p a then a :: takewhile p s' else []
  end.

(** [s.strip(chars)]: characters of [chars] removed at both ends. *)
Definition strip_chars (cs : list ascii) (s : str) : str :=
  rev (dropwhile (fun a => mem a cs) (rev (dropwhile (fun a => mem a cs) s))).

(** [s.strip()]: white space removed at both ends. *)
Definition strip (s : str) : str :=
  rev (dropwhile is_space (rev (dropwhile is_space s))).

Fixpoint strip_prefix (p s : str) : option str :=
  match p with
  | [] => Some s
  | a :: p' =>
      match s with
      | [] => None
      | b :: s' => if Ascii.eqb a b then strip_prefix p' s' else None
      end
  end.

Definition startswith (s p : str) : bool :=
  match strip_prefix p s with Some _ => true | None => false end.

(** [s.replace(old, new)] for a non-empty [old]: occurrences are replaced
    from left to right without overlap.  [skip] counts the characters of an
    occurrence still to be passed over. *)
Fixpoint replace_from (skip : nat) (old new s : str) : str :=
  match s with
  | [] => []
  | a :: s' =>
      match skip with
      | S k => replace_from k old new s'
      | O =>
          if startswith s old
          then new ++ replace_from (length old - 1) old new s'
          else a :: replace_from 0 old new s'
      end
  end.

Definition replace (old new s : str) : str := replace_from 0 old new s.

(** ** Regular expressions

    The fragment of [re] the script uses, with the backtracking semantics of
    the library: quantifiers are greedy, alternatives are tried from left to
    right, and the first overall success wins. *)

Inductive charclass :=
| CDot                      (* .       anything but a newline *)
| CIn (cs : list ascii)     (* [...]   *)
| CNotIn (cs : list ascii)  (* [^...]  *)
| CSpace.                   (* \s      *)

Definition newline : ascii := ascii_of_nat 10.

Definition cls_mem (c : charclass) (a : ascii) : bool :=
  match c with
  | CDot => negb (Ascii.eqb a newline)
  | CIn cs => mem a cs
  | CNotIn cs => negb (mem a cs)
  | CSpace => is_space a
  end.

Inductive regex :=
| Lit (l : str)             (* literal text *)
| Cls (c : charclass)       (* one character of a class *)
| Plus (c : charclass)      (* c+ *)
| Opt (r : regex)           (* r? *)
| Alt (r1 r2 : regex)       (* r1|r2 *)
| Seq (r1 r2 : regex)       (* r1r2 *)
| Group (n : nat) (r : regex)  (* (r), the n-th group *)
| Eol.                      (* $ *)

(** Captured groups, most recent first. *)
Definition caps := list (nat * str).

(** [$] without MULTILINE: the end of the string, or just before a newline
    that ends the string. *)
Definition at_eol (s : str) : bool :=
  match s with
  | [] => true
  | [a] => Ascii.eqb a newline
  | _ => false
  end.

Section Matcher.
Context {A : Type}.

(** One or more characters satisfying [p], the longest run first. *)
Fixpoint plus_cls (p : ascii -> bool) (s : str) (k : str -> option A)
  : option A :=
  match s with
  | [] => None
  | a :: s' =>
      if p a then
        match plus_cls p s' k with
        | Some v => Some v
        | None => k s'
        end
      else None
  end.

(** [exec r s cs k]: match [r] at the head of [s], then continue with [k]
    on what is left; [None] when every way of matching fails. *)
Fixpoint exec (r : regex) (s : str) (cs : caps)
         (k : str -> caps -> option A) : option A :=
  match r with
  | Lit l =>
      match strip_prefix l s with
      | Some rest => k rest cs
      | None => None
      end
  | Cls c =>
      match s with
      | a :: rest => if cls_mem c a then k rest cs else None
      | [] => None
      end
  | Plus c => plus_cls (cls_mem c) s (fun rest => k rest cs)
  | Opt r1 =>
      match exec r1 s cs k with
      | Some v => Some v
      | None => k s cs
      end
  | Alt r1 r2 =>
      match exec r1 s cs k with
      | Some v => Some v
      | None => exec r2 s cs k
      end
  | Seq r1 r2 => exec r1 s cs (fun rest cs' => exec r2 rest cs' k)
  | Group n r1 =>
      exec r1 s cs
        (fun rest cs' =>
           k rest ((n, firstn (length s - length rest) s) :: cs'))
  | Eol => if at_eol s then k s cs else None
  end.
End Matcher.

(** [re.match(r, s)]: anchored at the start of [s] only.  The result holds
    the unmatched rest and the groups. *)
Definition re_match (r : regex) (s : str) : option (str * caps) :=
  exec r s [] (fun rest cs => Some (rest, cs)).

(** [m.group(n)] *)
Fixpoint group (n : nat) (cs : caps) : str :=
  match cs with
  | [] => []
  | (i, v) :: cs' => if Nat.eqb i n then v else group n cs'
  end.

(** [re.sub(r, repl, s)] for a pattern that matches no empty string (both
    patterns of the script are such): scan from the left, replace each match
    and go on behind it.  [fuel] bounds the number of scan steps; [length s]
    is enough. *)
Fixpoint re_sub_from (fuel : nat) (r : regex) (repl s : str) : str :=
  match fuel with
  | O => s
  | S fuel' =>
      match s with
      | [] => []
      | a :: s' =>
          match re_match r s with
          | Some (rest, _) =>
              if length rest <? length s
              then repl ++ re_sub_from fuel' r repl rest
              else a :: re_sub_from fuel' r repl s'
          | None => a :: re_sub_from fuel' r repl s'
          end
      end
  end.

Definition re_sub (r : regex) (repl s : str) : str :=
  re_sub_from (length s) r repl s.

(** ** sanitize_filename *)

(** The characters of the class in the first substitution: less-than,
    greater-than, colon, double quote, slash, backslash, bar, question mark
    and star. *)
Definition forbidden : list ascii :=
  lit "<>:" ++ [ascii_of_nat 34] ++ lit "/\|?*".

Definition sanitize_filename (name : str) : str :=
  let name := re_sub (Cls (CIn forbidden)) [] name in
  let name := re_sub (Plus CSpace) (lit "-") name in
  let name := strip_chars (lit "-.") name in
  firstn 255 name.

(** ** parse_github_url *)

Inductive url_info :=
| UFile (owner repo branch path : str)
| UDir (owner repo branch path : str)
| URepo (owner repo : str)
| UGist (owner gist_id : str).

(** [url_info["type"]] *)
Definition url_type (u : url_info) : str :=
  match u with
  | UFile _ _ _ _ => lit "file"
  | UDir _ _ _ _ => lit "dir"
  | URepo _ _ => lit "repo"
  | UGist _ _ => lit "gist"
  end.

Definition slash : ascii := "/"%char.

(** [([^/]+)] as group [n] *)
Definition seg (n : nat) : regex := Group n (Plus (CNotIn [slash])).

(** [https://github\.com/([^/]+)/([^/]+)/(?:blob|raw)/([^/]+)/(.+)] *)
Definition file_pattern : regex :=
  Seq (Lit (lit "https://github.com/"))
 (Seq (seg 1) (Seq (Lit (lit "/"))
 (Seq (seg 2) (Seq (Lit (lit "/"))
 (Seq (Alt (Lit (lit "blob")) (Lit (lit "raw"))) (Seq (Lit (lit "/"))
 (Seq (seg 3) (Seq (Lit (lit "/"))
      (Group 4 (Plus CDot)))))))))).

(** [https://github\.com/([^/]+)/([^/]+)/tree/([^/]+)/(.+)] *)
Definition dir_pattern : regex :=
  Seq (Lit (lit "https://github.com/"))
 (Seq (seg 1) (Seq (Lit (lit "/"))
 (Seq (seg 2) (Seq (Lit (lit "/"))
 (Seq (Lit (lit "tree")) (Seq (Lit (lit "/"))
 (Seq (seg 3) (Seq (Lit (lit "/"))
      (Group 4 (Plus CDot)))))))))).

(** [https://github\.com/([^/]+)/([^/]+)/?$] *)
Definition repo_pattern : regex :=
  Seq (Lit (lit "https://github.com/"))
 (Seq (seg 1) (Seq (Lit (lit "/"))
 (Seq (seg 2) (Seq (Opt (Lit (lit "/"))) Eol)))).

(** [https://gist\.github\.com/([^/]+)/([^/#]+)] *)
Definition gist_pattern : regex :=
  Seq (Lit (lit "https://gist.github.com/"))
 (Seq (seg 1) (Seq (Lit (lit "/"))
      (Group 2 (Plus (CNotIn [slash; "#"%char]))))).


(** The dictionary [patterns], in insertion order. *)
Definition patterns : list (str * regex) :=
  [ (lit "file", file_pattern);
    (lit "dir", dir_pattern);
    (lit "repo", repo_pattern);
    (lit "gist", gist_pattern) ].

(** The body of the loop over [patterns.items()] for one entry whose
    pattern matched with groups [cs]. *)
Definition build_info (url_type : str) (cs : caps) : url_info :=
  if str_eqb url_type (lit "gist") then UGist (group 1 cs) (group 2 cs)
  else if str_eqb url_type (lit "repo") then URepo (group 1 cs) (group 2 cs)
  else if str_eqb url_type (lit "file")
       then UFile (group 1 cs) (group 2 cs) (group 3 cs) (group 4 cs)
       else UDir (group 1 cs) (group 2 cs) (group 3 cs) (group 4 cs).

Fixpoint first_match (ps : list (str * regex)) (url : str) : option url_info :=
  match ps with
  | [] => None
  | (url_type, pattern) :: ps' =>
      match re_match pattern url with
      | Some (_, cs) => Some (build_info url_type cs)
      | None => first_match ps' url
      end
  end.

Definition parse_github_url (url : str) : option url_info :=
  first_match patterns url.

(** ** os.path (POSIX) *)

(** [os.path.join(a, b)] *)
Definition join2 (a b : str) : str :=
  if startswith b [slash] then b
  else match rev a with
       | [] => b
       | c :: _ => if Ascii.eqb c slash then a ++ b else a ++ [slash] ++ b
       end.

(** [os.path.join(a, *p)] *)
Definition path_join (a : str) (p : list str) : str := fold_left join2 p a.

Definition not_slash (a : ascii) : bool := negb (Ascii.eqb a slash).

(** [os.path.basename(p)]: what follows the last slash. *)
Definition basename (p : str) : str := rev (takewhile not_slash (rev p)).

(** [os.path.dirname(p)]: what precedes the last slash, with the slashes
    that end it removed unless it consists of slashes only. *)
Definition dirname (p : str) : str :=
  let head := rev (dropwhile not_slash (rev p)) in
  if forallb (Ascii.eqb slash) head then head
  else rev (dropwhile (Ascii.eqb slash) (rev head)).

(** ** The policy tables *)

Definition OPEN_SOURCE_LICENSES : list str :=
  map lit
    [ "MIT"; "Apache-2.0"; "BSD-2-Clause"; "BSD-3-Clause"; "GPL-2.0";
      "GPL-3.0"; "LGPL-2.1"; "LGPL-3.0"; "MPL-2.0"; "ISC"; "0BSD";
      "Unlicense"; "CC0-1.0"; "CC-BY-4.0"; "CC-BY-SA-4.0"; "AGPL-3.0";
      "EPL-2.0"; "BSL-1.0" ].

(** [x in OPEN_SOURCE_LICENSES] *)
Definition is_open_source (x : str) : bool :=
  existsb (str_eqb x) OPEN_SOURCE_LICENSES.

Definition CATEGORY_MAPPING : list (str * str) :=
  [ (lit "Slash-Commands", lit "slash_command");
    (lit "CLAUDE.md Files", lit "claude_md");
    (lit "Workflows & Knowledge Guides", lit "workflow");
    (lit "Tooling", lit "tooling");
    (lit "Official Documentation", lit "blog");
    (lit " Implementation", lit "implementation") ].

(** [d.get(key, default)] *)
Fixpoint dict_get (d : list (str * str)) (key default : str) : str :=
  match d with
  | [] => default
  | (k, v) :: d' => if str_eqb k key then v else dict_get d' key default
  end.

(** ** Floating point *)

(** The nearest integer, ties to the even one. *)
Definition round_half_even (q : Q) : Z :=
  let f := Qfloor q in
  match (q - inject_Z f ?= 1 # 2)%Q with
  | Lt => f
  | Gt => (f + 1)%Z
  | Eq => if Z.even f then f else (f + 1)%Z
  end.

(** The integer part of the binary logarithm of a positive rational. *)
Definition log2_floor (x : Q) : Z :=
  if Qle_bool 1 x then Z.log2 (Qfloor x)
  else (- Z.log2_up (Qceiling (/ x)))%Z.

Definition pow2 (e : Z) : Q :=
  if (0 <=? e)%Z then inject_Z (2 ^ e) else (1 # Z.to_pos (2 ^ (- e)))%Q.

(** The binary64 number nearest to [x], ties to the even significand: the
    result of a floating point operation whose exact result is [x].  A
    binary64 number has 53 significant bits, so that between [2^e] and
    [2^(e+1)] the numbers are [2^(e-52)] apart.  The exponent is not
    bounded: overflow and subnormal numbers, out of reach of the seconds the
    script computes, are not represented. *)
Definition round64 (x : Q) : Q :=
  if Qeq_bool x 0 then 0%Q
  else
    let ulp := pow2 (log2_floor (Qabs x) - 52) in
    Qred (inject_Z (round_half_even (x / ulp)) * ulp)%Q.

(** [x + y] on two floats. *)
Definition float_add (x y : Q) : Q := round64 (x + y)%Q.

(** The primitive binary64 numbers of the kernel, to compare [float_add]
    with. *)
Module Binary64.
Import Floats.

Definition to_Q (f : float) : option Q :=
  match Prim2SF f with
  | S754_zero _ => Some 0%Q
  | S754_finite s m e =>
      Some (Qred ((if s then -1 else 1) * inject_Z (Zpos m) * pow2 e))%Q
  | _ => None
  end.

(** [float_add] gives the sum the kernel computes. *)
Definition agrees (x y : float) : bool :=
  match to_Q x, to_Q y, to_Q (x + y)%float with
  | Some a, Some b, Some c => Qeq_bool (float_add a b) c
  | _, _, _ => false
  end.

(** The largest number below 2. *)
Definition below_two : float := 0x1.fffffffffffffp+0%float.

Definition samples : list (float * float) :=
  [ (1, below_two); (2, below_two); (4, below_two);
    (1, 1); (1, 1.5); (1, 2); (2, 1.25); (4, 1.75);
    (1, 0x1.0000000000001p+0); (1, 0x1.ffffffffffffep+0);
    (8, 0x1.4cccccccccccdp+0); (0x1p+52, 1.5); (0x1p+53, 1);
    (0x1p+53, 1.5); (0x1p+54, 3); (0x1p+1023, 1);
    (0x1.999999999999ap-4, 0x1.999999999999ap-3);
    (-1, below_two); (-5.5, 2.25) ]%float.
End Binary64.

(** ** The environment and its effects *)

Record item := {
  item_type : str;          (* item["type"] *)
  item_name : str;          (* item["name"] *)
  item_download_url : str   (* item["download_url"] *)
}.

(** What [response.json()] yields, as far as the script reads it: an array,
    an object whose ["files"] is an object, or any other value.  An entry
    [None] of a listing is an element without the keys the loop reads; a
    gist file with content [None] has no ["content"]: reading either
    raises.  Of any other value the script can only tell whether a [for]
    loop over it runs no iteration ([empty], an empty object or string);
    a loop over any other one raises, and so does reading ["files"]. *)
Inductive payload :=
| Listing (items : list (option item))
| GistData (files : list (str * option str))
| Other (empty : bool).

Record response := {
  status_code : Z;
  content : str;                 (* response.content *)
  json : option payload          (* None: response.json() raises *)
}.

Inductive http_result :=
| NetError                       (* requests.get raises *)
| Resp (r : response).

Inductive event :=
| EvGet (url accept : str)       (* requests.get(url, headers, timeout) *)
| EvMakedirs (path : str)        (* os.makedirs(path, exist_ok=True) *)
| EvOpen (path : str)            (* open(path, "wb") or open(path, "w") *)
| EvWrite (path data : str)      (* f.write(data) *)
| EvUniform (value : Q)          (* random.uniform(1, 2), a float *)
| EvSleep (seconds : Q)          (* time.sleep(seconds) *)
| EvIsdir (path : str)           (* os.path.isdir(path) *)
| EvCopytree (src dst : str)     (* shutil.copytree(src, dst, ...) *)
| EvCopy2 (src dst : str).       (* shutil.copy2(src, dst) *)

Definition trace := list event.

(** The environment answers by the time of the call, the number of effects
    performed before it. *)
Record world := {
  http_get : nat -> str -> str -> http_result;
  uniform : nat -> Q;
  fs_raises : nat -> bool;
  fs_isdir : nat -> str -> bool
}.

Inductive result (A : Type) :=
| Ok (a : A)
| Raised.                        (* an exception propagates *)
Arguments Ok {A} a.
Arguments Raised {A}.

(** Computations: a trace in, a trace and a value or an exception out. *)
Definition M (A : Type) := trace -> trace * result A.

Definition ret {A} (a : A) : M A := fun tr => (tr, Ok a).
Definition raise {A} : M A := fun tr => (tr, Raised).
Definition bind {A B} (c : M A) (f : A -> M B) : M B :=
  fun tr =>
    match c tr with
    | (tr', Ok a) => f a tr'
    | (tr', Raised) => (tr', Raised)
    end.

Declare Scope m_scope.
Delimit Scope m_scope with m.
Notation "x <- c ;; k" := (bind c (fun x => k))
  (at level 61, c at next level, right associativity) : m_scope.
Notation "c ;; k" := (bind c (fun _ => k))
  (at level 61, right associativity) : m_scope.

(** [for x in xs: body x], stopped by the first exception. *)
Fixpoint for_each {A} (xs : list A) (body : A -> M unit) : M unit :=
  match xs with
  | [] => ret tt
  | x :: xs' => bind (body x) (fun _ => for_each xs' body)
  end.

Definition accept_raw : str := lit "application/vnd.github.v3.raw".
Definition accept_json : str := lit "application/vnd.github+json".

(** How a branch of the [if]/[elif] chain of [download_github_file] ends: by
    [return b], or by falling through to the rate-limit check with
    [response] bound or not. *)
Inductive branch_end :=
| Return (b : bool)
| Fall (response : option response).

Section Effects.
Variable w : world.

Definition requests_get (url accept : str) : M response :=
  fun tr =>
    match http_get w (length tr) url accept with
    | NetError => (tr ++ [EvGet url accept], Raised)
    | Resp r => (tr ++ [EvGet url accept], Ok r)
    end.

(** A file-system call that may raise [OSError]. *)
Definition fs_call (e : event) : M unit :=
  fun tr =>
    if fs_raises w (length tr) then (tr ++ [e], Raised)
    else (tr ++ [e], Ok tt).

Definition makedirs (path : str) : M unit := fs_call (EvMakedirs path).
Definition open_ (path : str) : M unit := fs_call (EvOpen path).
Definition write (path data : str) : M unit := fs_call (EvWrite path data).
Definition copytree (src dst : str) : M unit := fs_call (EvCopytree src dst).
Definition copy2 (src dst : str) : M unit := fs_call (EvCopy2 src dst).

Definition isdir (path : str) : M bool :=
  fun tr => (tr ++ [EvIsdir path], Ok (fs_isdir w (length tr) path)).

(** The two effects that never raise are plain trace transformers. *)
Definition random_uniform_1_2 (tr : trace) : trace * Q :=
  let u := uniform w (length tr) in (tr ++ [EvUniform u], u).

Definition sleep (seconds : Q) (tr : trace) : trace :=
  tr ++ [EvSleep seconds].

(** *** download_github_file *)

(** [.../repos/{owner}/{repo}/contents/{path}?ref={branch}] *)
Definition contents_url (owner repo branch path : str) : str :=
  lit "https://api.github.com/repos/" ++ owner ++ lit "/" ++ repo
  ++ lit "/contents/" ++ path ++ lit "?ref=" ++ branch.

(** [https://api.github.com/gists/{gist_id}] *)
Definition gists_api_url (gist_id : str) : str :=
  lit "https://api.github.com/gists/" ++ gist_id.

(** The body of the loop over the items of a listing. *)
Definition download_item (output_path : str) (it : option item) : M unit :=
  match it with
  | None => raise
  | Some it =>
      if str_eqb (item_type it) (lit "file") then
        (let file_path := path_join output_path [item_name it] in
         file_response <- requests_get (item_download_url it) accept_raw ;;
         if (status_code file_response =? 200)%Z then
           (open_ file_path ;; write file_path (content file_response))
         else ret tt)%m
      else ret tt
  end.

(** The body of the loop over the files of a gist. *)
Definition write_gist_file (output_path : str) (f : str * option str)
  : M unit :=
  let file_path := path_join output_path [fst f] in
  (open_ file_path ;;
   match snd f with
   | None => raise
   | Some text => write file_path text
   end)%m.

Definition branches (url_info : url_info) (output_path : str)
  : M branch_end :=
  match url_info with
  | UFile owner repo branch path =>
      (response <- requests_get (contents_url owner repo branch path)
                                accept_raw ;;
       if (status_code response =? 200)%Z then
         (makedirs (dirname output_path) ;;
          open_ output_path ;;
          write output_path (content response) ;;
          ret (Return true))
       else ret (Fall (Some response)))%m
  | UDir owner repo branch path =>
      (response <- requests_get (contents_url owner repo branch path)
                                accept_json ;;
       if (status_code response =? 200)%Z then
         (makedirs output_path ;;
          match json response with
          | Some (Listing items) =>
              for_each items (download_item output_path) ;;
              ret (Return true)
          | Some (Other true) => ret (Return true)
          | _ => raise
          end)
       else ret (Fall (Some response)))%m
  | UGist owner gist_id =>
      (response <- requests_get (gists_api_url gist_id) accept_json ;;
       if (status_code response =? 200)%Z then
         match json response with
         | None => raise
         | Some gist_data =>
             makedirs output_path ;;
             match gist_data with
             | GistData files =>
                 for_each files (write_gist_file output_path) ;;
                 ret (Return true)
             | _ => raise
             end
         end
       else ret (Fall (Some response)))%m
  | URepo _ _ => ret (Fall None)
  end.

(** The [try] block.  With no branch taken, [response] is unbound and
    reading it raises. *)
Definition try_block (url_info : url_info) (output_path : str) : M bool :=
  (e <- branches url_info output_path ;;
   match e with
   | Return b => ret b
   | Fall None => raise
   | Fall (Some response) =>
       if (status_code response =? 429)%Z then raise else ret false
   end)%m.

(** [wait_time = (2**retry_count) + random.uniform(1, 2)]: the integer
    power is converted to a float, exactly for a [retry_count] below 1024
    (beyond, the conversion overflows), and added to the jitter. *)
Definition wait_time (retry_count : nat) (u : Q) : Q :=
  float_add (inject_Z (2 ^ Z.of_nat retry_count)) u.

(** The function with its [except] clause.  [fuel] bounds the depth of
    the recursion; [max_retries - retry_count] is never used up. *)
Fixpoint download_from (fuel : nat) (url_info : url_info)
         (output_path : str) (retry_count max_retries : nat) (tr : trace)
  : trace * bool :=
  match try_block url_info output_path tr with
  | (tr1, Ok b) => (tr1, b)
  | (tr1, Raised) =>
      if retry_count <? max_retries then
        let (tr2, u) := random_uniform_1_2 tr1 in
        let tr3 := sleep (wait_time retry_count u) tr2 in
        match fuel with
        | S fuel' =>
            download_from fuel' url_info output_path
                          (retry_count + 1) max_retries tr3
        | O => (tr3, false)
        end
      else (tr1, false)
  end.

Definition download_github_file (url_info : url_info) (output_path : str)
           (retry_count max_retries : nat) (tr : trace) : trace * bool :=
  download_from (max_retries - retry_count) url_info output_path
                retry_count max_retries tr.

(** *** process_resources *)

(** The copy into the hosted tree, inside its own [try]. *)
Definition copy_to_hosted (resource_path hosted_path : str) : M unit :=
  (makedirs (dirname hosted_path) ;;
   d <- isdir resource_path ;;
   if d then copytree resource_path hosted_path
   else copy2 resource_path hosted_path)%m.
End Effects.

(** A row of the manifest, as [csv.DictReader] yields it: the columns the
    script reads are present and hold strings.  [License] is [None] when the
    manifest has no such column. *)
Record Row := {
  Display_Name : str;
  Category : str;
  Active : str;
  Primary_Link : str;
  Secondary_Link : str;
  License : option str
}.

(** The arguments of [process_resources]; [None] is Python's [None]. *)
Record config := {
  category_filter : option str;
  license_filter : option str;
  max_downloads : option Z;
  output_dir : str;
  hosted_dir : str
}.

Record stats := {
  total_resources : Z;
  downloaded : Z;
  skipped : Z;
  failed : Z
}.

(** Truth values of the optional arguments. *)
Definition truthy_str (x : option str) : bool :=
  match x with Some (_ :: _) => true | _ => false end.

Definition truthy_int (x : option Z) : bool :=
  match x with Some n => negb (n =? 0)%Z | None => false end.

(** [row.get("License", default)] *)
Definition get_license (row : Row) (default : str) : str :=
  match License row with Some l => l | None => default end.

(** [max_downloads and downloaded >= max_downloads] *)
Definition limit_reached (cfg : config) (st : stats) : bool :=
  match max_downloads cfg with
  | Some n => truthy_int (Some n) && (n <=? downloaded st)%Z
  | None => false
  end.

(** [a and x != a] for an optional filter [a]. *)
Definition filtered_out (a : option str) (x : str) : bool :=
  match a with
  | Some f => truthy_str a && negb (str_eqb x f)
  | None => false
  end.

(** [row["Primary Link"].strip() or row["Secondary Link"].strip()] *)
Definition row_url (row : Row) : str :=
  match strip (Primary_Link row) with
  | [] => strip (Secondary_Link row)
  | p => p
  end.

Definition row_category (row : Row) : str :=
  sanitize_filename (replace (lit " & ") (lit "-") (lower (Category row))).

Definition row_mapped_category (row : Row) : str :=
  dict_get CATEGORY_MAPPING (Category row) (lit "other").

Definition row_license (row : Row) : str :=
  strip (get_license row (lit "NOT_FOUND")).

(** The chain that determines the output paths: [None] is the branch that
    ends in [continue]; otherwise [resource_path] and [hosted_path]. *)
Definition output_paths (cfg : config) (row : Row) (url_info : url_info)
  : option (str * option str) :=
  let category := row_category row in
  let mapped_category := row_mapped_category row in
  let resource_license := row_license row in
  let safe_name := sanitize_filename (Display_Name row) in
  match url_info with
  | UGist _ _ =>
      Some (path_join (output_dir cfg) [category; safe_name ++ lit "-gist"],
            if is_open_source resource_license
            then Some (path_join (hosted_dir cfg) [mapped_category; safe_name])
            else None)
  | URepo _ _ => None
  | UDir _ _ _ _ =>
      Some (path_join (output_dir cfg) [category; safe_name],
            if is_open_source resource_license
            then Some (path_join (hosted_dir cfg) [mapped_category; safe_name])
            else None)
  | UFile _ _ _ path =>
      let filename := basename path in
      Some (path_join (output_dir cfg) [category; safe_name; filename],
            if is_open_source resource_license
            then Some (path_join (hosted_dir cfg)
                                 [mapped_category; safe_name; filename])
            else None)
  end.

Definition add_total (st : stats) : stats :=
  {| total_resources := total_resources st + 1; downloaded := downloaded st;
     skipped := skipped st; failed := failed st |}.
Definition add_downloaded (st : stats) : stats :=
  {| total_resources := total_resources st; downloaded := downloaded st + 1;
     skipped := skipped st; failed := failed st |}.
Definition add_skipped (st : stats) : stats :=
  {| total_resources := total_resources st; downloaded := downloaded st;
     skipped := skipped st + 1; failed := failed st |}.
Definition add_failed (st : stats) : stats :=
  {| total_resources := total_resources st; downloaded := downloaded st;
     skipped := skipped st; failed := failed st + 1 |}.

Section Processor.
Variable w : world.
Variable cfg : config.

(** What follows a download: the counters, and the hosted copy. *)
Definition after_download (row : Row) (resource_path : str)
           (hosted_path : option str) (download_success : bool)
           (st : stats) (tr : trace) : trace * stats :=
  if download_success then
    if truthy_str hosted_path && is_open_source (row_license row) then
      match hosted_path with
      | Some hp =>
          (fst (copy_to_hosted w resource_path hp tr), add_downloaded st)
      | None => (tr, add_downloaded st)
      end
    else (tr, add_downloaded st)
  else (tr, add_failed st).

(** The loop body below the download limit check; the result is the state
    at the [continue] or at the end of the body. *)
Definition process_row (row : Row) (st : stats) (tr : trace)
  : trace * stats :=
  if negb (str_eqb (upper (Active row)) (lit "TRUE")) then (tr, st)
  else
    let st := add_total st in
    if filtered_out (category_filter cfg) (Category row) then (tr, st)
    else if filtered_out (license_filter cfg) (get_license row [])
    then (tr, st)
    else
      match row_url row with
      | [] => (tr, st)
      | url =>
          match parse_github_url url with
          | None => (tr, add_skipped st)
          | Some url_info =>
              match output_paths cfg row url_info with
              | None => (tr, add_skipped st)
              | Some (resource_path, hosted_path) =>
                  let (tr1, download_success) :=
                    download_github_file w url_info resource_path 0 3 tr in
                  let (tr2, st2) :=
                    after_download row resource_path hosted_path
                                   download_success st tr1 in
                  let (tr3, u) := random_uniform_1_2 w tr2 in
                  (sleep u tr3, st2)
              end
          end
      end.

(** [for row in reader], with the [break] at the download limit. *)
Fixpoint process_rows (rows : list Row) (st : stats) (tr : trace)
  : trace * stats :=
  match rows with
  | [] => (tr, st)
  | row :: rest =>
      if limit_reached cfg st then (tr, st)
      else
        let (tr', st') := process_row row st tr in
        process_rows rest st' tr'
  end.

Definition zero_stats : stats :=
  {| total_resources := 0; downloaded := 0; skipped := 0; failed := 0 |}.

(** [process_resources] on a manifest with the given rows, from an empty
    trace; it yields the effects and the counters of the summary. *)
Definition process_resources (rows : list Row) : trace * stats :=
  process_rows rows zero_stats [].
End Processor.

(** ** Observations on traces *)

(** A computation only appends events, all of them satisfying [P]. *)
Definition emits {A} (P : event -> Prop) (c : M A) : Prop :=
  forall tr, exists evs, fst (c tr) = tr ++ evs /\ Forall P evs.

(** Events of a fetch attempt: requests and writes below the archive path. *)
Definition fetch_event (e : event) : Prop :=
  match e with
  | EvGet _ _ | EvMakedirs _ | EvOpen _ | EvWrite _ _ => True
  | _ => False
  end.

(** The durations slept, in order. *)
Fixpoint sleeps (tr : trace) : list Q :=
  match tr with
  | [] => []
  | EvSleep q :: tr' => q :: sleeps tr'
  | _ :: tr' => sleeps tr'
  end.

(** The requests sent, in order. *)
Fixpoint requests (tr : trace) : list (str * str) :=
  match tr with
  | [] => []
  | EvGet url accept :: tr' => (url, accept) :: requests tr'
  | _ :: tr' => requests tr'
  end.

(** The waits of successive retries that start at [retry_count] and draw
    the jitters [us]. *)
Fixpoint backoff_waits (retry_count : nat) (us : list Q) : list Q :=
  match us with
  | [] => []
  | u :: us' => wait_time retry_count u :: backoff_waits (S retry_count) us'
  end.

(** Events of the copy into the hosted tree that no fetch performs. *)
Definition copy_event (e : event) : Prop :=
  match e with
  | EvIsdir _ | EvCopytree _ _ | EvCopy2 _ _ => True
  | _ => False
  end.

(** The part of the loop body that runs for a row with a supported
    reference: the fetch, what follows it, and the pause. *)
Definition fetch_row (w : world) (row : Row) (url_info : url_info)
           (resource_path : str) (hosted_path : option str)
           (st : stats) (tr : trace) : trace * stats :=
  let (tr1, download_success) :=
    download_github_file w url_info resource_path 0 3 tr in
  let (tr2, st2) :=
    after_download w row resource_path hosted_path download_success st tr1 in
  let (tr3, u) := random_uniform_1_2 w tr2 in
  (sleep u tr3, st2).

(** The request a fetch attempt starts with; none for a repository. *)
Definition top_request (u : url_info) : option (str * str) :=
  match u with
  | UFile owner repo branch path =>
      Some (contents_url owner repo branch path, accept_raw)
  | UDir owner repo branch path =>
      Some (contents_url owner repo branch path, accept_json)
  | UGist _ gist_id => Some (gists_api_url gist_id, accept_json)
  | URepo _ _ => None
  end.

(** The request is refused: the call raises, or the answer is 429. *)
Definition refused (h : http_result) : Prop :=
  match h with
  | NetError => True
  | Resp r => status_code r = 429%Z
  end.

(** *** URL shapes

    The strings the four patterns describe, written out. *)

Definition github : str := lit "https://github.com/".
Definition gist_github : str := lit "https://gist.github.com/".

(** A path segment: not empty, no slash. *)
Definition segment (x : str) : Prop :=
  x <> [] /\ Forall (fun a => a <> slash) x.

(** A run of a class that is not empty. *)
Definition run (c : charclass) (x : str) : Prop :=
  x <> [] /\ forallb (cls_mem c) x = true.

(** What follows a longest run: nothing, or a character outside the
    class. *)
Definition stops (c : charclass) (rest : str) : Prop :=
  match rest with
  | [] => True
  | a :: _ => cls_mem c a = false
  end.

Definition file_url (o r b p url : str) : Prop :=
  exists kw rest,
    (kw = lit "blob" \/ kw = lit "raw") /\
    segment o /\ segment r /\ segment b /\ run CDot p /\ stops CDot rest /\
    url = github ++ o ++ [slash] ++ r ++ [slash] ++ kw ++ [slash]
          ++ b ++ [slash] ++ p ++ rest.

Definition dir_url (o r b p url : str) : Prop :=
  exists rest,
    segment o /\ segment r /\ segment b /\ run CDot p /\ stops CDot rest /\
    url = github ++ o ++ [slash] ++ r ++ [slash] ++ lit "tree" ++ [slash]
          ++ b ++ [slash] ++ p ++ rest.

(** The repository name may be followed by one slash and by a newline that
    ends the string. *)
Definition repo_url (o r url : str) : Prop :=
  exists tail,
    (tail = [] \/ tail = [slash] \/ tail = [slash; newline]) /\
    segment o /\ segment r /\
    url = github ++ o ++ [slash] ++ r ++ tail.

Definition gist_id_class : charclass := CNotIn [slash; "#"%char].

Definition gist_url (o g url : str) : Prop :=
  exists rest,
    segment o /\ run gist_id_class g /\ stops gist_id_class rest /\
    url = gist_github ++ o ++ [slash] ++ g ++ rest.

(** The common tail of the file and directory patterns: slash, branch
    segment, slash, path. *)
Definition branch_and_path : regex :=
  Seq (Lit [slash]) (Seq (seg 3) (Seq (Lit [slash]) (Group 4 (Plus CDot)))).

(** The common head of the three repository patterns, followed by [r]:
    host, owner segment, slash, repository segment. *)
Definition owner_and_repo (r : regex) : regex :=
  Seq (Lit github) (Seq (seg 1) (Seq (Lit [slash]) (Seq (seg 2) r))).

(** The segment at the head of a string and what follows its slash. *)
Definition split_segment (s : str) : option (str * str) :=
  match takewhile (cls_mem (CNotIn [slash])) s,
        dropwhile (cls_mem (CNotIn [slash])) s with
  | (_ :: _) as x, _ :: rest => Some (x, rest)
  | _, _ => None
  end.

(** The components joined by single slashes: [a/b/c]. *)
Fixpoint slashed (parts : list str) : str :=
  match parts with
  | [] => []
  | [p] => p
  | p :: ps => p ++ [slash] ++ slashed ps
  end.

(** A directory name that is not empty and does not end in a slash. *)
Definition plain_dir (d : str) : bool :=
  match rev d with
  | c :: _ => not_slash c
  | [] => false
  end.

(** [hosted_path] as the script sets it: a path or [None]. *)
Definition hosted_if_open (row : Row) (path : str) : option str :=
  if is_open_source (row_license row) then Some path else None.

(** The path shapes in the words of the specification: an archive path by
    variant, and a hosted path of the same shape below
    [hostedDir/mappedCategory]; nothing for a repository. *)
Definition spec_paths (cfg : config) (row : Row) (u : url_info)
  : option (str * str) :=
  let safe_name := sanitize_filename (Display_Name row) in
  let shape :=
    match u with
    | UFile _ _ _ path => Some [safe_name; basename path]
    | UDir _ _ _ _ => Some [safe_name]
    | UGist _ _ => Some [safe_name ++ lit "-gist"]
    | URepo _ _ => None
    end in
  match shape with
  | Some tail =>
      Some (slashed (output_dir cfg :: row_category row :: tail),
            slashed (hosted_dir cfg :: row_mapped_category row :: tail))
  | None => None
  end.

(** ** Sample inputs *)

(** A display name of 256 characters with a dot in position 255. *)
Definition long_name : str := repeat "a"%char 254 ++ lit ".b".

Definition info_file : url_info :=
  UFile (lit "acme") (lit "repo") (lit "main") (lit "cmd/tool.py").

Definition resp (status : Z) (body : str) (j : option payload) : response :=
  {| status_code := status; content := body; json := j |}.

(** An environment in which every request is answered with [status] and the
    file system works. *)
Definition world_status (status : Z) : world :=
  {| http_get := fun _ _ _ => Resp (resp status (lit "data") None);
     uniform := fun _ => (3 # 2)%Q;
     fs_raises := fun _ => false;
     fs_isdir := fun _ _ => false |}.

(** An environment without network. *)
Definition world_offline : world :=
  {| http_get := fun _ _ _ => NetError;
     uniform := fun _ => (3 # 2)%Q;
     fs_raises := fun _ => false;
     fs_isdir := fun _ _ => false |}.

(** The largest float below 2, [2 - 2^-52]. *)
Definition jitter_below_two : Q :=
  (9007199254740991 # 4503599627370496)%Q.

(** An environment without network whose generator draws the largest float
    below 2. *)
Definition world_late_jitter : world :=
  {| http_get := fun _ _ _ => NetError;
     uniform := fun _ => jitter_below_two;
     fs_raises := fun _ => false;
     fs_isdir := fun _ _ => false |}.

Definition config_default : config :=
  {| category_filter := None; license_filter := None; max_downloads := None;
     output_dir := lit ".myob/downloads"; hosted_dir := lit "resources" |}.

Definition config_max (n : Z) : config :=
  {| category_filter := None; license_filter := None;
     max_downloads := Some n;
     output_dir := lit ".myob/downloads"; hosted_dir := lit "resources" |}.

Definition mk_row (name category active link license : string) : Row :=
  {| Display_Name := lit name; Category := lit category;
     Active := lit active; Primary_Link := lit link; Secondary_Link := [];
     License := Some (lit license) |}.

Definition row_file : Row :=
  mk_row "My Tool" "Tooling" "TRUE"
         "https://github.com/acme/repo/blob/main/cmd/tool.py" "MIT".

Definition row_repo : Row :=
  mk_row "Whole Repo" "Tooling" "TRUE" "https://github.com/acme/repo" "MIT".

Definition row_gist : Row :=
  mk_row "Snippet" "Tooling" "TRUE"
         "https://gist.github.com/acme/0123abcd" "MIT".

Definition row_no_link : Row :=
  mk_row "No Link" "Tooling" "TRUE" "" "MIT".

Definition row_elsewhere : Row :=
  mk_row "Elsewhere" "Tooling" "TRUE" "https://example.com/x" "MIT".

Definition row_lowercase_active : Row :=
  mk_row "My Tool" "Tooling" "true"
         "https://github.com/acme/repo/blob/main/cmd/tool.py" "MIT".

Definition row_inactive : Row :=
  mk_row "My Tool" "Tooling" "FALSE"
         "https://github.com/acme/repo/blob/main/cmd/tool.py" "MIT".

Definition row_proprietary : Row :=
  mk_row "My Tool" "Tooling" "TRUE"
         "https://github.com/acme/repo/blob/main/cmd/tool.py" "Proprietary".

(** ** Further observations *)

(** The characters [sanitize_filename] can remove altogether: those of the
    first substitution, white space, and the hyphen and dot stripped at the
    ends. *)
Definition removable (a : ascii) : bool :=
  mem a forbidden || is_space a || mem a (lit "-.").

(** The first and the last character of a string, if any, satisfy [p]. *)
Definition ends_satisfy (p : ascii -> bool) (s : str) : Prop :=
  match s with [] => True | a :: _ => p a = true end /\
  match rev s with [] => True | a :: _ => p a = true end.

(** [row["Active"].upper() != "TRUE"] is false. *)
Definition is_active (row : Row) : bool :=
  str_eqb (upper (Active row)) (lit "TRUE").

(** [item["type"] == "file"] *)
Definition is_file_item (it : item) : bool :=
  str_eqb (item_type it) (lit "file").

(** The data written, with the paths, in order. *)
Fixpoint writes (tr : trace) : list (str * str) :=
  match tr with
  | [] => []
  | EvWrite path data :: tr' => (path, data) :: writes tr'
  | _ :: tr' => writes tr'
  end.

(** An event that opens or writes a file does so at a path that starts
    with [p]. *)
Definition below (p : str) (e : event) : Prop :=
  match e with
  | EvOpen q | EvWrite q _ => startswith q p = true
  | _ => True
  end.

(** No name in the payload of a response starts with a slash. *)
Definition relative_names (r : response) : Prop :=
  match json r with
  | Some (Listing items) =>
      Forall (fun it => match it with
                        | Some it => startswith (item_name it) [slash] = false
                        | None => True
                        end) items
  | Some (GistData files) =>
      Forall (fun f => startswith (fst f) [slash] = false) files
  | _ => True
  end.

(** Neither a request nor a file-system call ever raises. *)
Definition never_raises (w : world) : Prop :=
  (forall t url accept, http_get w t url accept <> NetError) /\
  (forall t, fs_raises w t = false).

(** No request is ever answered with status 200. *)
Definition never_ok (w : world) : Prop :=
  forall t url accept r,
    http_get w t url accept = Resp r -> status_code r <> 200%Z.

(** The counters of a run are consistent: none is negative and every
    downloaded, skipped or failed row was counted in the total. *)
Definition consistent (st : stats) : Prop :=
  (0 <= downloaded st)%Z /\ (0 <= skipped st)%Z /\ (0 <= failed st)%Z /\
  (downloaded st + skipped st + failed st <= total_resources st)%Z.

(** *** Further sample inputs *)

(** The network fails for the first request of a run and works from then
    on. *)
Definition world_flaky : world :=
  {| http_get := fun t _ _ =>
       if t <? 3 then NetError else Resp (resp 200 (lit "data") None);
     uniform := fun _ => (3 # 2)%Q;
     fs_raises := fun _ => false;
     fs_isdir := fun _ _ => false |}.

Definition item_readme : item :=
  {| item_type := lit "file"; item_name := lit "README.md";
     item_download_url := lit "https://raw.example/README.md" |}.

Definition item_subdir : item :=
  {| item_type := lit "dir"; item_name := lit "docs";
     item_download_url := [] |}.

(** The first request is answered with a listing of a file and a
    directory, every later one with 404. *)
Definition world_listing : world :=
  {| http_get := fun t _ _ =>
       if t =? 0
       then Resp (resp 200 []
                       (Some (Listing [Some item_readme; Some item_subdir])))
       else Resp (resp 404 [] None);
     uniform := fun _ => (3 # 2)%Q;
     fs_raises := fun _ => false;
     fs_isdir := fun _ _ => true |}.

(** Every request is answered with a gist of two files. *)
Definition world_gist : world :=
  {| http_get := fun _ _ _ =>
       Resp (resp 200 []
                  (Some (GistData [(lit "a.py", Some (lit "print(1)"));
                                   (lit "b.md", Some (lit "notes"))])));
     uniform := fun _ => (3 # 2)%Q;
     fs_raises := fun _ => false;
     fs_isdir := fun _ _ => true |}.

Definition info_dir : url_info :=
  UDir (lit "acme") (lit "repo") (lit "main") (lit "docs").

Definition info_gist : url_info := UGist (lit "acme") (lit "0123abcd").

(** An environment in which every request is answered with 200 and a body
    that parses to [j]. *)
Definition world_json (j : option payload) : world :=
  {| http_get := fun _ _ _ => Resp (resp 200 [] j);
     uniform := fun _ => (3 # 2)%Q;
     fs_raises := fun _ => false;
     fs_isdir := fun _ _ => true |}.

Definition config_category (c : string) : config :=
  {| category_filter := Some (lit c); license_filter := None;
     max_downloads := None;
     output_dir := lit ".myob/downloads"; hosted_dir := lit "resources" |}.

Definition config_license (l : string) : config :=
  {| category_filter := None; license_filter := Some (lit l);
     max_downloads := None;
     output_dir := lit ".myob/downloads"; hosted_dir := lit "resources" |}.

(** A row of a manifest without License column. *)
Definition row_unlicensed : Row :=
  {| Display_Name := lit "My Tool"; Category := lit "Tooling";
     Active := lit "TRUE";
     Primary_Link := lit "https://github.com/acme/repo/blob/main/cmd/tool.py";
     Secondary_Link := []; License := None |}.

(** The file system works until the fetch of the first row is written and
    fails from then on, so that the copy into the hosted tree raises. *)
Definition world_copy_fails : world :=
  {| http_get := fun _ _ _ => Resp (resp 200 (lit "data") None);
     uniform := fun _ => (3 # 2)%Q;
     fs_raises := fun t => 4 <=? t;
     fs_isdir := fun _ _ => false |}.

(** Every gist holds one file with an absolute name. *)
Definition world_absolute_name : world :=
  {| http_get := fun _ _ _ =>
       Resp (resp 200 []
                  (Some (GistData [(lit "/tmp/x", Some (lit "data"))])));
     uniform := fun _ => (3 # 2)%Q;
     fs_raises := fun _ => false;
     fs_isdir := fun _ _ => true |}.

(** An upper-case letter of ASCII. *)
Definition is_ascii_upper (a : ascii) : bool :=
  let n := nat_of_ascii a in (65 <=? n) && (n <=? 90).

(** An event that is not a request. *)
Definition no_get (e : event) : Prop :=
  match e with EvGet _ _ => False | _ => True end.

(** * Properties *)

(** ** Traces *)

Lemma Forall_app_intro {A} (P : A -> Prop) a b :
  Forall P a -> Forall P b -> Forall P (a ++ b).
Proof. intros. apply Forall_app. split; assumption. Qed.

(** Closes [Forall P] over appended and literal lists of events. *)
Ltac forall_events :=
  repeat first
    [ assumption
    | apply Forall_nil
    | apply Forall_cons; [solve [simpl; tauto | simpl; auto]|]
    | apply Forall_app_intro ].

Lemma emits_ret {A} P (a : A) : emits P (ret a).
Proof. intros tr. exists []. simpl. rewrite app_nil_r. auto. Qed.

Lemma emits_raise {A} P : emits P (@raise A).
Proof. intros tr. exists []. simpl. rewrite app_nil_r. auto. Qed.

Lemma emits_bind {A B} P (c : M A) (f : A -> M B) :
  emits P c -> (forall a, emits P (f a)) -> emits P (bind c f).
Proof.
  intros Hc Hf tr. unfold bind.
  destruct (Hc tr) as [e1 [E1 F1]].
  destruct (c tr) as [tr1 [a|]] eqn:Ec; simpl in E1; subst tr1.
  - destruct (Hf a (tr ++ e1)) as [e2 [E2 F2]].
    exists (e1 ++ e2). rewrite E2, app_assoc. split; auto.
    apply Forall_app; auto.
  - exists e1. auto.
Qed.

Lemma emits_for_each {A} P (xs : list A) (body : A -> M unit) :
  (forall x, emits P (body x)) -> emits P (for_each xs body).
Proof.
  intros Hb. induction xs as [|x xs IH]; simpl.
  - apply emits_ret.
  - apply emits_bind; auto.
Qed.

Lemma emits_requests_get w P url accept :
  P (EvGet url accept) -> emits P (requests_get w url accept).
Proof.
  intros HP tr. exists [EvGet url accept]. unfold requests_get.
  destruct (http_get w (length tr) url accept); simpl; auto.
Qed.

Lemma emits_fs_call w P e : P e -> emits P (fs_call w e).
Proof.
  intros HP tr. exists [e]. unfold fs_call.
  destruct (fs_raises w (length tr)); simpl; auto.
Qed.

Lemma download_item_emits w p it : emits fetch_event (download_item w p it).
Proof.
  destruct it as [it|]; simpl; [|apply emits_raise].
  destruct (str_eqb _ _); [|apply emits_ret].
  apply emits_bind; [apply emits_requests_get; exact I|].
  intros r. destruct (status_code r =? 200)%Z; [|apply emits_ret].
  apply emits_bind; intros; apply emits_fs_call; exact I.
Qed.

Lemma write_gist_file_emits w p f : emits fetch_event (write_gist_file w p f).
Proof.
  unfold write_gist_file.
  apply emits_bind; [apply emits_fs_call; exact I|].
  intros _. destruct (snd f); [apply emits_fs_call; exact I|apply emits_raise].
Qed.

Lemma branches_emits w ui p : emits fetch_event (branches w ui p).
Proof.
  destruct ui; simpl.
  - apply emits_bind; [apply emits_requests_get; exact I|].
    intros r. destruct (status_code r =? 200)%Z; [|apply emits_ret].
    repeat (apply emits_bind; [apply emits_fs_call; exact I|intros _]).
    apply emits_ret.
  - apply emits_bind; [apply emits_requests_get; exact I|].
    intros r. destruct (status_code r =? 200)%Z; [|apply emits_ret].
    apply emits_bind; [apply emits_fs_call; exact I|intros _].
    destruct (json r) as [[items|files|[|]]|];
      try apply emits_raise; try apply emits_ret.
    apply emits_bind; [|intros; apply emits_ret].
    apply emits_for_each. intros. apply download_item_emits.
  - apply emits_ret.
  - apply emits_bind; [apply emits_requests_get; exact I|].
    intros r. destruct (status_code r =? 200)%Z; [|apply emits_ret].
    destruct (json r) as [pl|]; [|apply emits_raise].
    apply emits_bind; [apply emits_fs_call; exact I|intros _].
    destruct pl as [items|files|e]; try apply emits_raise.
    apply emits_bind; [|intros; apply emits_ret].
    apply emits_for_each. intros. apply write_gist_file_emits.
Qed.

Lemma try_block_emits w ui p : emits fetch_event (try_block w ui p).
Proof.
  unfold try_block. apply emits_bind; [apply branches_emits|].
  intros [b|[r|]]; try apply emits_ret; try apply emits_raise.
  destruct (status_code r =? 429)%Z; [apply emits_raise|apply emits_ret].
Qed.

(** ** The retry loop *)

(** The recursion of [download_github_file], freed of its fuel. *)
Lemma download_github_file_eq w ui p rc mr tr :
  download_github_file w ui p rc mr tr =
  match try_block w ui p tr with
  | (tr1, Ok b) => (tr1, b)
  | (tr1, Raised) =>
      if rc <? mr then
        let (tr2, u) := random_uniform_1_2 w tr1 in
        download_github_file w ui p (rc + 1) mr (sleep (wait_time rc u) tr2)
      else (tr1, false)
  end.
Proof.
  unfold download_github_file.
  destruct (mr - rc) as [|n] eqn:E; simpl;
    destruct (try_block w ui p tr) as [tr1 [b|]]; auto;
    destruct (rc <? mr) eqn:L; auto.
  - apply Nat.ltb_lt in L. lia.
  - apply Nat.ltb_lt in L. simpl.
    replace (mr - (rc + 1)) with n by lia. reflexivity.
Qed.

Lemma sleeps_app a b : sleeps (a ++ b) = sleeps a ++ sleeps b.
Proof.
  induction a as [|e a IH]; simpl; auto.
  destruct e; simpl; rewrite ?IH; auto.
Qed.

Lemma sleeps_fetch evs : Forall fetch_event evs -> sleeps evs = [].
Proof.
  induction 1 as [|e evs He _ IH]; simpl; auto.
  destruct e; simpl in *; auto; contradiction.
Qed.

Lemma backoff_waits_length rc us : length (backoff_waits rc us) = length us.
Proof. revert rc. induction us; simpl; auto. Qed.

Lemma backoff_waits_nth us : forall rc i,
  i < length us ->
  nth i (backoff_waits rc us) 0%Q = wait_time (rc + i) (nth i us 0%Q).
Proof.
  induction us as [|u us IH]; simpl; intros rc i Hi; [lia|].
  destruct i as [|i].
  - rewrite Nat.add_0_r. reflexivity.
  - rewrite IH by lia. f_equal. lia.
Qed.

(** The sleeps of a fetch are the backoff waits of at most
    [max_retries - retry_count] retries, each with a jitter drawn from the
    generator. *)
Lemma download_sleeps w ui p mr : forall n rc tr,
  mr - rc <= n ->
  exists us,
    length us <= mr - rc /\
    Forall (fun u => exists t, u = uniform w t) us /\
    sleeps (fst (download_github_file w ui p rc mr tr))
    = sleeps tr ++ backoff_waits rc us.
Proof.
  induction n as [|n IH]; intros rc tr Hn;
    rewrite download_github_file_eq;
    destruct (try_block_emits w ui p tr) as [evs [E F]];
    destruct (try_block w ui p tr) as [tr1 [b|]]; simpl in E; subst tr1.
  1,3: exists []; simpl; rewrite sleeps_app, (sleeps_fetch evs F);
       repeat split; auto; lia.
  - replace (rc <? mr) with false by (symmetry; apply Nat.ltb_ge; lia).
    exists []. simpl. rewrite sleeps_app, (sleeps_fetch evs F).
    repeat split; auto; lia.
  - destruct (rc <? mr) eqn:L.
    + apply Nat.ltb_lt in L. unfold random_uniform_1_2, sleep.
      set (u := uniform w (length (tr ++ evs))).
      destruct (IH (rc + 1)
                   (((tr ++ evs) ++ [EvUniform u]) ++ [EvSleep (wait_time rc u)]))
        as [us [Hl [Hu Hs]]]; [lia|].
      exists (u :: us). simpl. split; [lia|]. split.
      * constructor; auto. exists (length (tr ++ evs)). reflexivity.
      * rewrite Hs. rewrite !sleeps_app, (sleeps_fetch evs F). simpl.
        rewrite !app_nil_r, <- app_assoc. simpl.
        replace (rc + 1) with (S rc) by lia. reflexivity.
    + exists []. simpl. rewrite sleeps_app, (sleeps_fetch evs F).
      repeat split; auto; lia.
Qed.

(** *** Rounding *)

Lemma round_half_even_ge m q :
  (inject_Z m <= q)%Q -> (m <= round_half_even q)%Z.
Proof.
  intros H. apply Qfloor_resp_le in H. rewrite Qfloor_Z in H.
  unfold round_half_even.
  destruct (q - inject_Z (Qfloor q) ?= 1 # 2)%Q; [destruct (Z.even _)|..]; lia.
Qed.

Lemma round_half_even_le m q :
  (q <= inject_Z m)%Q -> (round_half_even q <= m)%Z.
Proof.
  intros H. pose proof (Qfloor_le q) as Hf.
  assert (Hm : (Qfloor q <= m)%Z).
  { apply Qfloor_resp_le in H. rewrite Qfloor_Z in H. exact H. }
  assert (Hs : (0 < q - inject_Z (Qfloor q))%Q -> (Qfloor q + 1 <= m)%Z).
  { intros Hr. assert (L : (inject_Z (Qfloor q) < inject_Z m)%Q) by lra.
    rewrite <- Zlt_Qlt in L. lia. }
  unfold round_half_even.
  destruct (q - inject_Z (Qfloor q) ?= 1 # 2)%Q eqn:E.
  - apply Qeq_alt in E. destruct (Z.even _); [lia|]. apply Hs. lra.
  - exact Hm.
  - apply Qgt_alt in E. apply Hs. lra.
Qed.

Lemma pow2_pos e : (0 < pow2 e)%Q.
Proof.
  unfold pow2. destruct (0 <=? e)%Z eqn:E.
  - apply Z.leb_le in E. replace 0%Q with (inject_Z 0) by reflexivity.
    rewrite <- Zlt_Qlt. apply Z.pow_pos_nonneg; lia.
  - reflexivity.
Qed.

(** Every integer is a multiple of a power of two with an exponent that is
    not positive. *)
Lemma pow2_divides e a :
  (e <= 0)%Z -> exists m, (inject_Z m * pow2 e == inject_Z a)%Q.
Proof.
  intros He. exists (a * 2 ^ (- e))%Z. unfold pow2.
  assert (P : (0 < 2 ^ (- e))%Z) by (apply Z.pow_pos_nonneg; lia).
  destruct (0 <=? e)%Z eqn:E.
  - apply Z.leb_le in E. replace e with 0%Z by lia. simpl.
    unfold Qeq. simpl. lia.
  - unfold Qeq. simpl. rewrite Z2Pos.id by exact P. lia.
Qed.

(** Below [2^53] the integers are binary64 numbers, so that rounding does
    not cross them. *)
Lemma round64_between a b x :
  (1 <= x)%Q -> (x < inject_Z (2 ^ 53))%Q ->
  (inject_Z a <= x)%Q -> (x <= inject_Z b)%Q ->
  (inject_Z a <= round64 x)%Q /\ (round64 x <= inject_Z b)%Q.
Proof.
  intros H1 H53 Ha Hb. unfold round64.
  destruct (Qeq_bool x 0) eqn:E0.
  { apply Qeq_bool_iff in E0. lra. }
  assert (Habs : Qabs x = x).
  { destruct x as [n d]. unfold Qle in H1. simpl in *.
    rewrite Z.abs_eq by lia. reflexivity. }
  rewrite Habs. unfold log2_floor.
  replace (Qle_bool 1 x) with true by (symmetry; apply Qle_bool_iff; exact H1).
  set (e := (Z.log2 (Qfloor x) - 52)%Z).
  assert (He : (e <= 0)%Z).
  { assert (F1 : (1 <= Qfloor x)%Z).
    { apply Qfloor_resp_le in H1. exact H1. }
    assert (F2 : (Qfloor x < 2 ^ 53)%Z).
    { pose proof (Qfloor_le x) as Hf.
      assert (L : (inject_Z (Qfloor x) < inject_Z (2 ^ 53))%Q) by lra.
      rewrite <- Zlt_Qlt in L. exact L. }
    apply Z.log2_lt_pow2 in F2; lia. }
  pose proof (pow2_pos e) as Hp.
  rewrite Qred_correct.
  destruct (pow2_divides e a He) as [ma Hma].
  destruct (pow2_divides e b He) as [mb Hmb].
  split.
  - rewrite <- Hma. apply Qmult_le_compat_r; [|lra].
    rewrite <- Zle_Qle. apply round_half_even_ge.
    apply Qle_shift_div_l; [exact Hp|]. rewrite Hma. exact Ha.
  - rewrite <- Hmb. apply Qmult_le_compat_r; [|lra].
    rewrite <- Zle_Qle. apply round_half_even_le.
    apply Qle_shift_div_r; [exact Hp|]. rewrite Hmb. exact Hb.
Qed.

(** On these pairs of floats [float_add] is the addition of the kernel's
    binary64 numbers. *)
Example float_add_is_binary64 :
  forallb (fun p => Binary64.agrees (fst p) (snd p)) Binary64.samples = true /\
  Binary64.to_Q Binary64.below_two = Some jitter_below_two.
Proof. split; vm_compute; reflexivity. Qed.

(** Up to retry 52 the wait lies between the bounds, both included. *)
Lemma wait_time_bounds k u :
  k <= 52 -> (1 <= u)%Q -> (u <= 2)%Q ->
  (inject_Z (2 ^ Z.of_nat k) + 1 <= wait_time k u)%Q /\
  (wait_time k u <= inject_Z (2 ^ Z.of_nat k) + 2)%Q.
Proof.
  intros Hk H1 H2. unfold wait_time, float_add.
  assert (P0 : (1 <= 2 ^ Z.of_nat k)%Z).
  { apply (Z.pow_le_mono_r 2 0); lia. }
  assert (P1 : (2 ^ Z.of_nat k <= 2 ^ 52)%Z).
  { apply Z.pow_le_mono_r; lia. }
  rewrite Zle_Qle in P0, P1.
  change (inject_Z (2 ^ 52)) with (4503599627370496 # 1)%Q in P1.
  change (inject_Z 1) with 1%Q in P0.
  destruct (round64_between (2 ^ Z.of_nat k + 1) (2 ^ Z.of_nat k + 2)
                            (inject_Z (2 ^ Z.of_nat k) + u))
    as [L U].
  - lra.
  - change (inject_Z (2 ^ 53)) with (9007199254740992 # 1)%Q. lra.
  - rewrite inject_Z_plus. change (inject_Z 1) with 1%Q. lra.
  - rewrite inject_Z_plus. change (inject_Z 2) with 2%Q. lra.
  - rewrite inject_Z_plus in L, U.
    change (inject_Z 1) with 1%Q in L. change (inject_Z 2) with 2%Q in U.
    split; assumption.
Qed.

(** C3, amended: a fetch with [max_retries] retries sleeps at most
    [max_retries] times, and the wait before retry [k] (counted from 1) is
    the floating point sum of [2^(k-1)] and the jitter drawn for it; with
    jitters in [[1,2]] and [k] up to 53 it lies in
    [[2^(k-1)+1, 2^(k-1)+2]], both bounds included. *)
Theorem retry_count_and_backoff_bounds w ui p max_retries tr
  (Hjitter : forall t, (1 <= uniform w t)%Q /\ (uniform w t <= 2)%Q) :
  exists waits,
    sleeps (fst (download_github_file w ui p 0 max_retries tr))
    = sleeps tr ++ waits /\
    length waits <= max_retries /\
    forall k, 1 <= k <= length waits ->
      exists t,
        nth (k - 1) waits 0%Q
        = float_add (inject_Z (2 ^ Z.of_nat (k - 1))) (uniform w t) /\
        (k <= 53 ->
         (inject_Z (2 ^ Z.of_nat (k - 1)) + 1 <= nth (k - 1) waits 0)%Q /\
         (nth (k - 1) waits 0 <= inject_Z (2 ^ Z.of_nat (k - 1)) + 2)%Q).
Proof.
  destruct (download_sleeps w ui p max_retries max_retries 0 tr)
    as [us [Hl [Hu Hs]]]; [lia|].
  exists (backoff_waits 0 us). rewrite backoff_waits_length.
  split; [exact Hs|]. split; [lia|].
  intros k Hk.
  rewrite backoff_waits_nth by lia. simpl.
  rewrite Forall_forall in Hu.
  destruct (Hu (nth (k - 1) us 0%Q)) as [t Ht]; [apply nth_In; lia|].
  exists t. rewrite Ht. split; [reflexivity|].
  intros Hk53. apply wait_time_bounds; [lia|apply Hjitter..].
Qed.

Lemma retry_count_and_backoff_bounds_witness :
  (forall t, (1 <= uniform world_offline t)%Q /\
             (uniform world_offline t <= 2)%Q) /\
  exists waits,
    sleeps (fst (download_github_file world_offline info_file
                                      (lit "out/tool.py") 0 3 []))
    = sleeps [] ++ waits /\
    length waits <= 3 /\
    forall k, 1 <= k <= length waits ->
      exists t,
        nth (k - 1) waits 0%Q
        = float_add (inject_Z (2 ^ Z.of_nat (k - 1)))
                    (uniform world_offline t) /\
        (k <= 53 ->
         (inject_Z (2 ^ Z.of_nat (k - 1)) + 1 <= nth (k - 1) waits 0)%Q /\
         (nth (k - 1) waits 0 <= inject_Z (2 ^ Z.of_nat (k - 1)) + 2)%Q).
Proof.
  assert (H : forall t, (1 <= uniform world_offline t)%Q /\
                        (uniform world_offline t <= 2)%Q).
  { intros t. simpl. unfold Qle. simpl. lia. }
  split; [exact H|].
  exact (retry_count_and_backoff_bounds world_offline info_file
                                        (lit "out/tool.py") 3 [] H).
Defined.

(** C3 as stated fails: a jitter below 2 does not keep the wait below
    [2^(k-1)+2].  With the largest float below 2 drawn each time the three
    sums round up, and the fetch sleeps for exactly 3, 4 and 6 seconds. *)
Lemma backoff_wait_reaches_upper_bound :
  (forall t, (1 <= uniform world_late_jitter t)%Q /\
             (uniform world_late_jitter t < 2)%Q) /\
  sleeps (fst (download_github_file world_late_jitter info_file
                                    (lit "out/tool.py") 0 3 []))
  = [3%Q; 4%Q; 6%Q] /\
  ~ (3 < inject_Z (2 ^ Z.of_nat (1 - 1)) + 2)%Q /\
  ~ (4 < inject_Z (2 ^ Z.of_nat (2 - 1)) + 2)%Q /\
  ~ (6 < inject_Z (2 ^ Z.of_nat (3 - 1)) + 2)%Q.
Proof.
  split; [|split; [|repeat split]].
  - intros t. simpl. unfold jitter_below_two, Qle, Qlt. simpl. lia.
  - vm_compute. reflexivity.
  - unfold Qlt. simpl. lia.
  - unfold Qlt. simpl. lia.
  - unfold Qlt. simpl. lia.
Qed.

(** Past retry 53 the grid of the floats is coarser than the jitter: the
    sum of [2^53] and 1 is [2^53], below the lower bound. *)
Example wait_time_past_53 :
  wait_time 53 1 = inject_Z (2 ^ 53) /\
  ~ (inject_Z (2 ^ 53) + 1 <= wait_time 53 1)%Q.
Proof.
  assert (E : wait_time 53 1 = inject_Z (2 ^ 53)) by (vm_compute; reflexivity).
  split; [exact E|]. rewrite E. unfold Qle. simpl. lia.
Qed.

(** The bound on the retries is reached: without network a fetch with three
    retries sleeps three times, for 1, 2 and 4 seconds plus the jitter. *)
Example offline_fetch_sleeps :
  download_github_file world_offline info_file (lit "out/tool.py") 0 3 []
  = (fst (download_github_file world_offline info_file
                               (lit "out/tool.py") 0 3 []), false) /\
  sleeps (fst (download_github_file world_offline info_file
                                    (lit "out/tool.py") 0 3 []))
  = [(5 # 2)%Q; (7 # 2)%Q; (11 # 2)%Q].
Proof. split; vm_compute; reflexivity. Qed.

(** When every attempt raises, for whatever reason, the fetcher gives up
    after exactly the retries it has left. *)
Lemma download_all_raise w ui p mr :
  (forall tr, snd (try_block w ui p tr) = Raised) ->
  forall n rc tr,
    mr - rc = n ->
    snd (download_github_file w ui p rc mr tr) = false /\
    length (sleeps (fst (download_github_file w ui p rc mr tr)))
    = length (sleeps tr) + n.
Proof.
  intros Hr. induction n as [|n IH]; intros rc tr Hn;
    rewrite download_github_file_eq;
    destruct (try_block_emits w ui p tr) as [evs [E F]];
    specialize (Hr tr) as Hr';
    destruct (try_block w ui p tr) as [tr1 [b|]]; simpl in E, Hr';
      try discriminate; subst tr1.
  - replace (rc <? mr) with false by (symmetry; apply Nat.ltb_ge; lia).
    simpl. rewrite sleeps_app, (sleeps_fetch evs F), app_nil_r. auto.
  - replace (rc <? mr) with true by (symmetry; apply Nat.ltb_lt; lia).
    unfold random_uniform_1_2, sleep.
    match goal with
    | |- context [download_github_file _ _ _ _ _ ?t] =>
        destruct (IH (rc + 1) t) as [Hb Hl]; [lia|]
    end.
    split; [exact Hb|]. rewrite Hl, !sleeps_app, (sleeps_fetch evs F).
    simpl. rewrite !length_app. simpl. lia.
Qed.

(** ** The processor *)

Lemma str_eqb_eq a b : str_eqb a b = true <-> a = b.
Proof.
  unfold str_eqb. destruct (list_eq_dec ascii_dec a b); split; congruence.
Qed.

Lemma str_eqb_refl a : str_eqb a a = true.
Proof. apply str_eqb_eq. reflexivity. Qed.

Lemma str_eqb_neq a b : str_eqb a b = false <-> a <> b.
Proof.
  unfold str_eqb. destruct (list_eq_dec ascii_dec a b); split; congruence.
Qed.

Lemma requests_app a b : requests (a ++ b) = requests a ++ requests b.
Proof.
  induction a as [|e a IH]; simpl; auto.
  destruct e; simpl; rewrite ?IH; auto.
Qed.

(** A repository reference makes every attempt raise before any request. *)
Lemma try_block_repo w o r p tr : try_block w (URepo o r) p tr = (tr, Raised).
Proof. reflexivity. Qed.

Lemma download_repo w o r p mr : forall n rc tr,
  mr - rc <= n ->
  snd (download_github_file w (URepo o r) p rc mr tr) = false /\
  requests (fst (download_github_file w (URepo o r) p rc mr tr))
  = requests tr.
Proof.
  induction n as [|n IH]; intros rc tr Hn;
    rewrite download_github_file_eq, try_block_repo.
  - replace (rc <? mr) with false by (symmetry; apply Nat.ltb_ge; lia).
    auto.
  - destruct (rc <? mr) eqn:L; auto.
    apply Nat.ltb_lt in L. unfold random_uniform_1_2, sleep.
    match goal with
    | |- context [download_github_file _ _ _ _ _ ?t] =>
        destruct (IH (rc + 1) t) as [Hb Hr]; [lia|]
    end.
    split; [exact Hb|]. rewrite Hr, !requests_app. simpl.
    rewrite !app_nil_r. reflexivity.
Qed.

Lemma parse_github_url_nil : parse_github_url [] = None.
Proof. reflexivity. Qed.

(** The loop body for a row that is active and passes both filters. *)
Lemma process_row_selected w cfg row st tr :
  upper (Active row) = lit "TRUE" ->
  filtered_out (category_filter cfg) (Category row) = false ->
  filtered_out (license_filter cfg) (get_license row []) = false ->
  process_row w cfg row st tr =
  match row_url row with
  | [] => (tr, add_total st)
  | url =>
      match parse_github_url url with
      | None => (tr, add_skipped (add_total st))
      | Some url_info =>
          match output_paths cfg row url_info with
          | None => (tr, add_skipped (add_total st))
          | Some (resource_path, hosted_path) =>
              let (tr1, download_success) :=
                download_github_file w url_info resource_path 0 3 tr in
              let (tr2, st2) :=
                after_download w row resource_path hosted_path
                               download_success (add_total st) tr1 in
              let (tr3, u) := random_uniform_1_2 w tr2 in
              (sleep u tr3, st2)
          end
      end
  end.
Proof.
  intros Ha Hc Hl. unfold process_row.
  rewrite Ha, str_eqb_refl, Hc, Hl. reflexivity.
Qed.

(** C8: a repository reference is refused without a request.  The fetcher
    returns false and sends nothing, whatever the retry budget; the
    processor performs no effect at all for the row and adds one to
    [skipped] and to [total_resources], leaving [downloaded] and [failed]
    as they are. *)
Theorem repository_refused_without_request w cfg :
  (forall o r p rc mr tr,
      snd (download_github_file w (URepo o r) p rc mr tr) = false /\
      requests (fst (download_github_file w (URepo o r) p rc mr tr))
      = requests tr) /\
  (forall row o r st tr,
      upper (Active row) = lit "TRUE" ->
      filtered_out (category_filter cfg) (Category row) = false ->
      filtered_out (license_filter cfg) (get_license row []) = false ->
      parse_github_url (row_url row) = Some (URepo o r) ->
      process_row w cfg row st tr
      = (tr, {| total_resources := total_resources st + 1;
                downloaded := downloaded st;
                skipped := skipped st + 1;
                failed := failed st |})).
Proof.
  split.
  - intros. apply (download_repo w o r p mr (mr - rc)). lia.
  - intros row o r st tr Ha Hc Hl Hp.
    rewrite process_row_selected by assumption.
    destruct (row_url row) as [|a url] eqn:E.
    + rewrite parse_github_url_nil in Hp. discriminate.
    + rewrite Hp. reflexivity.
Qed.

Lemma repository_refused_without_request_witness :
  upper (Active row_repo) = lit "TRUE" /\
  parse_github_url (row_url row_repo)
  = Some (URepo (lit "acme") (lit "repo")) /\
  process_row (world_status 200) config_default row_repo zero_stats []
  = ([], {| total_resources := 1; downloaded := 0;
            skipped := 1; failed := 0 |}).
Proof.
  split; [reflexivity|]. split; [reflexivity|].
  apply (proj2 (repository_refused_without_request
                  (world_status 200) config_default)
               row_repo (lit "acme") (lit "repo"));
    reflexivity.
Defined.

(** Called on a repository reference the fetcher sends nothing: it sleeps
    through its three retries and returns false. *)
Example fetch_of_repository :
  download_github_file (world_status 200) (URepo (lit "acme") (lit "repo"))
                       (lit "out/repo") 0 3 []
  = ([EvUniform (3 # 2); EvSleep (5 # 2); EvUniform (3 # 2); EvSleep (7 # 2);
      EvUniform (3 # 2); EvSleep (11 # 2)], false).
Proof. vm_compute. reflexivity. Qed.

(** C7, amended: a row whose Active field does not read TRUE once put in
    upper case changes no counter and causes no effect. *)
Theorem inactive_row_changes_nothing w cfg row st tr :
  upper (Active row) <> lit "TRUE" ->
  process_row w cfg row st tr = (tr, st).
Proof.
  intros H. unfold process_row.
  apply str_eqb_neq in H. rewrite H. reflexivity.
Qed.

Lemma inactive_row_changes_nothing_witness :
  upper (Active row_inactive) <> lit "TRUE" /\
  process_row (world_status 200) config_default row_inactive zero_stats []
  = ([], zero_stats).
Proof.
  assert (H : upper (Active row_inactive) <> lit "TRUE")
    by (vm_compute; discriminate).
  split; [exact H|].
  exact (inactive_row_changes_nothing (world_status 200) config_default
                                      row_inactive zero_stats [] H).
Defined.

(** C7 as stated fails: the field [true] is not the literal [TRUE], yet the
    row counts as a resource and is downloaded. *)
Lemma lowercase_active_row_is_counted :
  Active row_lowercase_active <> lit "TRUE" /\
  snd (process_resources (world_status 200) config_default
                         [row_lowercase_active])
  = {| total_resources := 1; downloaded := 1; skipped := 0; failed := 0 |}.
Proof. split; [vm_compute; discriminate | vm_compute; reflexivity]. Qed.

(** The four ways the loop body can end. *)
Lemma process_row_cases w cfg row st tr :
  process_row w cfg row st tr = (tr, st) \/
  process_row w cfg row st tr = (tr, add_total st) \/
  process_row w cfg row st tr = (tr, add_skipped (add_total st)) \/
  exists ui rp hp,
    parse_github_url (row_url row) = Some ui /\
    output_paths cfg row ui = Some (rp, hp) /\
    process_row w cfg row st tr = fetch_row w row ui rp hp (add_total st) tr.
Proof.
  unfold process_row.
  destruct (negb _); auto.
  destruct (filtered_out (category_filter cfg) _); auto.
  destruct (filtered_out (license_filter cfg) _); auto.
  destruct (row_url row) as [|a url]; auto.
  destruct (parse_github_url (a :: url)) as [ui|]; auto.
  destruct (output_paths cfg row ui) as [[rp hp]|] eqn:E; auto.
  right. right. right. exists ui, rp, hp. auto.
Qed.

Lemma download_emits w ui p mr : forall n rc tr,
  mr - rc <= n ->
  exists evs,
    fst (download_github_file w ui p rc mr tr) = tr ++ evs /\
    Forall (fun e => ~ copy_event e) evs.
Proof.
  assert (Hf : forall evs, Forall fetch_event evs ->
                           Forall (fun e => ~ copy_event e) evs).
  { intros evs F. eapply Forall_impl; [|exact F].
    intros [] H; simpl in *; auto. }
  induction n as [|n IH]; intros rc tr Hn;
    rewrite download_github_file_eq;
    destruct (try_block_emits w ui p tr) as [evs [E F]];
    destruct (try_block w ui p tr) as [tr1 [b|]]; simpl in E; subst tr1.
  1,3: exists evs; auto.
  - replace (rc <? mr) with false by (symmetry; apply Nat.ltb_ge; lia).
    exists evs; auto.
  - destruct (rc <? mr) eqn:L; [|exists evs; auto].
    apply Nat.ltb_lt in L. unfold random_uniform_1_2, sleep.
    set (u := uniform w (length (tr ++ evs))).
    destruct (IH (rc + 1)
                 (((tr ++ evs) ++ [EvUniform u]) ++ [EvSleep (wait_time rc u)]))
      as [evs' [E' F']]; [lia|].
    exists (evs ++ [EvUniform u] ++ [EvSleep (wait_time rc u)] ++ evs').
    split; [rewrite E'; repeat rewrite <- app_assoc; reflexivity|].
    forall_events; auto.
Qed.

Lemma after_download_stats w row rp hp ok st tr :
  snd (after_download w row rp hp ok st tr)
  = if ok then add_downloaded st else add_failed st.
Proof.
  unfold after_download. destruct ok; auto.
  destruct (truthy_str hp && _); auto. destruct hp; auto.
Qed.

Lemma after_download_closed w row rp hp ok st tr :
  is_open_source (row_license row) = false ->
  after_download w row rp hp ok st tr
  = (tr, if ok then add_downloaded st else add_failed st).
Proof.
  intros H. unfold after_download. rewrite H, andb_false_r.
  destruct ok; reflexivity.
Qed.

(** C5: for a row whose license is not in the open-source set no hosted
    path is computed, the copy into the hosted tree is not run, and no
    effect of the row is a copy. *)
Theorem hosted_only_for_open_source w cfg row :
  is_open_source (row_license row) = false ->
  (forall ui rp hp, output_paths cfg row ui = Some (rp, hp) -> hp = None) /\
  (forall rp hp ok st tr,
      after_download w row rp hp ok st tr
      = (tr, if ok then add_downloaded st else add_failed st)) /\
  (forall st tr, exists evs,
      fst (process_row w cfg row st tr) = tr ++ evs /\
      Forall (fun e => ~ copy_event e) evs).
Proof.
  intros H. split; [|split].
  - intros ui rp hp. unfold output_paths. rewrite H.
    destruct ui; intros E; inversion E; reflexivity.
  - intros. apply after_download_closed. exact H.
  - intros st tr.
    destruct (process_row_cases w cfg row st tr)
      as [E|[E|[E|[ui [rp [hp [_ [_ E]]]]]]]]; rewrite E;
      try solve [exists []; simpl; rewrite app_nil_r; auto].
    unfold fetch_row.
    destruct (download_emits w ui rp 3 3 0 tr) as [evs [Ed Fd]]; [lia|].
    destruct (download_github_file w ui rp 0 3 tr) as [tr1 ok].
    simpl in Ed. subst tr1.
    rewrite after_download_closed by exact H.
    unfold random_uniform_1_2, sleep. simpl.
    set (u := uniform w (length (tr ++ evs))).
    exists (evs ++ [EvUniform u] ++ [EvSleep u]).
    split; [repeat rewrite <- app_assoc; reflexivity|].
    forall_events; auto.
Qed.

Lemma hosted_only_for_open_source_witness :
  is_open_source (row_license row_proprietary) = false /\
  exists evs,
    fst (process_row (world_status 200) config_default row_proprietary
                     zero_stats [])
    = [] ++ evs /\ Forall (fun e => ~ copy_event e) evs.
Proof.
  split; [reflexivity|].
  apply (hosted_only_for_open_source (world_status 200) config_default
                                     row_proprietary).
  reflexivity.
Defined.

Lemma process_row_no_url w cfg row st tr :
  row_url row = [] ->
  process_row w cfg row st tr = (tr, st) \/
  process_row w cfg row st tr = (tr, add_total st).
Proof.
  intros Hu. unfold process_row.
  destruct (negb _); auto.
  destruct (filtered_out (category_filter cfg) _); auto.
  destruct (filtered_out (license_filter cfg) _); auto.
  rewrite Hu. auto.
Qed.

(** With an open-source license the same row is copied into the hosted
    tree. *)
Example open_source_row_is_copied :
  In (EvCopy2 (lit ".myob/downloads/tooling/My-Tool/tool.py")
              (lit "resources/tooling/My-Tool/tool.py"))
     (fst (process_row (world_status 200) config_default row_file
                       zero_stats [])).
Proof. vm_compute. tauto. Qed.

(** C6, amended: an active row that passes the filters and whose link
    is not empty and matches no pattern causes no effect and adds one to
    [skipped] and to [total_resources], leaving [downloaded] and [failed]
    as they are; a row with both links empty causes no effect and changes
    no counter but [total_resources], which counts it if it is active; and
    no row whose link fails classification is ever counted as failed. *)
Theorem unclassified_rows_never_failed w cfg row st tr :
  (upper (Active row) = lit "TRUE" ->
   filtered_out (category_filter cfg) (Category row) = false ->
   filtered_out (license_filter cfg) (get_license row []) = false ->
   row_url row <> [] ->
   parse_github_url (row_url row) = None ->
   process_row w cfg row st tr
   = (tr, {| total_resources := total_resources st + 1;
             downloaded := downloaded st;
             skipped := skipped st + 1;
             failed := failed st |})) /\
  (strip (Primary_Link row) = [] -> strip (Secondary_Link row) = [] ->
   process_row w cfg row st tr
   = (tr, {| total_resources :=
               total_resources st + (if is_active row then 1 else 0);
             downloaded := downloaded st;
             skipped := skipped st;
             failed := failed st |})) /\
  (parse_github_url (row_url row) = None ->
   failed (snd (process_row w cfg row st tr)) = failed st).
Proof.
  split; [|split].
  - intros Ha Hc Hl Hu Hp. rewrite process_row_selected by assumption.
    destruct (row_url row); [congruence|]. rewrite Hp. reflexivity.
  - intros H1 H2.
    assert (Hu : row_url row = []) by (unfold row_url; rewrite H1; exact H2).
    unfold process_row, is_active.
    destruct (str_eqb (upper (Active row)) (lit "TRUE")); cbn [negb].
    + destruct (filtered_out (category_filter cfg) _); [reflexivity|].
      destruct (filtered_out (license_filter cfg) _); [reflexivity|].
      rewrite Hu. reflexivity.
    + destruct st. simpl. rewrite Z.add_0_r. reflexivity.
  - intros Hp.
    destruct (process_row_cases w cfg row st tr)
      as [E|[E|[E|[ui [rp [hp [Hp' _]]]]]]]; try (rewrite E; reflexivity).
    congruence.
Qed.

Lemma unclassified_rows_never_failed_witness :
  parse_github_url (row_url row_elsewhere) = None /\
  process_row (world_status 200) config_default row_elsewhere zero_stats []
  = ([], {| total_resources := 1; downloaded := 0;
            skipped := 1; failed := 0 |}).
Proof.
  split; [reflexivity|].
  apply (proj1 (unclassified_rows_never_failed
                  (world_status 200) config_default row_elsewhere
                  zero_stats []));
    try reflexivity.
  vm_compute. discriminate.
Defined.

(** C6 as stated fails: an active row with both link fields empty leaves
    [skipped] at zero. *)
Lemma empty_links_not_counted_as_skipped :
  Primary_Link row_no_link = [] /\ Secondary_Link row_no_link = [] /\
  process_resources (world_status 200) config_default [row_no_link]
  = ([], {| total_resources := 1; downloaded := 0;
            skipped := 0; failed := 0 |}).
Proof. repeat split. Qed.

(** ** The download limit *)

Lemma fetch_row_stats w row ui rp hp st tr :
  snd (fetch_row w row ui rp hp st tr)
  = if snd (download_github_file w ui rp 0 3 tr)
    then add_downloaded st else add_failed st.
Proof.
  unfold fetch_row.
  destruct (download_github_file w ui rp 0 3 tr) as [tr1 ok].
  pose proof (after_download_stats w row rp hp ok st tr1) as H.
  destruct (after_download w row rp hp ok st tr1) as [tr2 st2].
  simpl in *. subst st2. reflexivity.
Qed.

(** One row adds at most one download. *)
Lemma process_row_downloaded w cfg row st tr :
  (downloaded st <= downloaded (snd (process_row w cfg row st tr))
   <= downloaded st + 1)%Z.
Proof.
  destruct (process_row_cases w cfg row st tr)
    as [E|[E|[E|[ui [rp [hp [_ [_ E]]]]]]]]; rewrite E; simpl; try lia.
  rewrite fetch_row_stats.
  destruct (snd (download_github_file w ui rp 0 3 tr)); simpl; lia.
Qed.

Lemma process_rows_stop w cfg rows st tr :
  limit_reached cfg st = true -> process_rows w cfg rows st tr = (tr, st).
Proof. intros H. destruct rows; simpl; [|rewrite H]; reflexivity. Qed.

(** Scanning a manifest in two parts is scanning it at once. *)
Lemma process_rows_app w cfg r1 : forall r2 st tr,
  process_rows w cfg (r1 ++ r2) st tr
  = process_rows w cfg r2 (snd (process_rows w cfg r1 st tr))
                 (fst (process_rows w cfg r1 st tr)).
Proof.
  induction r1 as [|row r1 IH]; intros r2 st tr; simpl; [reflexivity|].
  destruct (limit_reached cfg st) eqn:L.
  - simpl. rewrite process_rows_stop by exact L. reflexivity.
  - destruct (process_row w cfg row st tr) as [tr' st']. apply IH.
Qed.

Lemma limit_reached_nonzero cfg N st :
  max_downloads cfg = Some N -> N <> 0%Z ->
  limit_reached cfg st = (N <=? downloaded st)%Z.
Proof.
  intros H HN. unfold limit_reached. rewrite H. simpl.
  destruct (N =? 0)%Z eqn:E; [apply Z.eqb_eq in E; contradiction|].
  reflexivity.
Qed.

(** C4: the code departs from the claim at a limit of zero.  Before the
    first row [downloaded] has already reached the limit, yet the guard
    tests the truth of [max_downloads] and takes zero for no limit: both
    rows are fetched and counted as downloaded. *)
Theorem zero_limit_does_not_stop :
  max_downloads (config_max 0) = Some 0%Z /\
  (0 <=? downloaded zero_stats)%Z = true /\
  limit_reached (config_max 0) zero_stats = false /\
  snd (process_resources (world_status 200) (config_max 0)
                         [row_file; row_file])
  = {| total_resources := 2; downloaded := 2; skipped := 0; failed := 0 |} /\
  length (requests (fst (process_resources (world_status 200) (config_max 0)
                                           [row_file; row_file]))) = 2.
Proof. repeat split; vm_compute; reflexivity. Qed.

(** X19: with a limit [N] other than zero, the scan stops as soon as
    [downloaded] has reached [N]: from then on no row is looked at, no
    effect happens and no counter moves, and the rows behind that point
    change nothing.  A scan that starts with at most [N] downloads ends
    with at most [N]; so does a run with a limit of at least one, and a run
    with a negative limit looks at no row. *)
Theorem download_limit_stops_scan w cfg N :
  max_downloads cfg = Some N -> N <> 0%Z ->
  (forall rows st tr,
      (N <= downloaded st)%Z -> process_rows w cfg rows st tr = (tr, st)) /\
  (forall rows st tr,
      (downloaded st <= N)%Z ->
      (downloaded (snd (process_rows w cfg rows st tr)) <= N)%Z) /\
  (forall r1 r2 st tr,
      (N <= downloaded (snd (process_rows w cfg r1 st tr)))%Z ->
      process_rows w cfg (r1 ++ r2) st tr = process_rows w cfg r1 st tr) /\
  (forall rows,
      (1 <= N)%Z ->
      (downloaded (snd (process_resources w cfg rows)) <= N)%Z) /\
  (forall rows,
      (N < 0)%Z -> process_resources w cfg rows = ([], zero_stats)).
Proof.
  intros H HN.
  assert (Stop : forall rows st tr,
             (N <= downloaded st)%Z ->
             process_rows w cfg rows st tr = (tr, st)).
  { intros rows st tr Hd. apply process_rows_stop.
    rewrite (limit_reached_nonzero cfg N st H HN). apply Z.leb_le. exact Hd. }
  assert (Bound : forall rows st tr,
             (downloaded st <= N)%Z ->
             (downloaded (snd (process_rows w cfg rows st tr)) <= N)%Z).
  { induction rows as [|row rows IH]; intros st tr Hd; simpl; [exact Hd|].
    rewrite (limit_reached_nonzero cfg N st H HN).
    destruct (N <=? downloaded st)%Z eqn:L; [exact Hd|].
    apply Z.leb_gt in L.
    pose proof (process_row_downloaded w cfg row st tr) as B.
    destruct (process_row w cfg row st tr) as [tr' st'].
    simpl in B. apply IH. lia. }
  split; [exact Stop|]. split; [exact Bound|]. split; [|split].
  - intros r1 r2 st tr Hd. rewrite process_rows_app.
    rewrite Stop by exact Hd.
    destruct (process_rows w cfg r1 st tr); reflexivity.
  - intros rows HN1. apply Bound. simpl. lia.
  - intros rows HN0. apply Stop. simpl. lia.
Qed.

Lemma download_limit_stops_scan_witness :
  max_downloads (config_max 1) = Some 1%Z /\
  process_rows (world_status 200) (config_max 1)
               ([row_file] ++ [row_file; row_gist]) zero_stats []
  = process_rows (world_status 200) (config_max 1) [row_file] zero_stats [] /\
  process_resources (world_status 200) (config_max (-1)) [row_file; row_gist]
  = ([], zero_stats).
Proof.
  split; [reflexivity|]. split.
  - apply (download_limit_stops_scan (world_status 200) (config_max 1) 1).
    + reflexivity.
    + discriminate.
    + vm_compute. discriminate.
  - apply (download_limit_stops_scan (world_status 200) (config_max (-1))
                                     (-1)).
    + reflexivity.
    + discriminate.
    + reflexivity.
Defined.

(** ** The retry policy *)

(** A refused request makes the attempt raise after that one request. *)
Lemma try_block_refused w ui p tr url accept :
  top_request ui = Some (url, accept) ->
  refused (http_get w (length tr) url accept) ->
  try_block w ui p tr = (tr ++ [EvGet url accept], Raised).
Proof.
  intros Ht Hr.
  destruct ui; simpl in Ht; inversion Ht; subst; clear Ht;
    unfold try_block, branches, bind, requests_get;
    destruct (http_get w (length tr) _ _) as [|r]; simpl in Hr; auto;
    assert (H200 : (status_code r =? 200)%Z = false) by (rewrite Hr; reflexivity);
    assert (H429 : (status_code r =? 429)%Z = true) by (rewrite Hr; reflexivity);
    rewrite H200; simpl; rewrite H429; reflexivity.
Qed.






(** ** sanitize_filename *)

Lemma Forall_dropwhile (P : ascii -> Prop) p s :
  Forall P s -> Forall P (dropwhile p s).
Proof.
  induction 1 as [|a s Ha Hs IH]; simpl; auto.
  destruct (p a); auto.
Qed.

Lemma Forall_firstn_str (P : ascii -> Prop) n : forall s,
  Forall P s -> Forall P (firstn n s).
Proof.
  induction n as [|n IH]; intros s H; simpl; auto.
  destruct H; auto.
Qed.

Lemma dropwhile_length p s : length (dropwhile p s) <= length s.
Proof.
  induction s as [|a s IH]; simpl; auto.
  destruct (p a); simpl; lia.
Qed.

Lemma takewhile_dropwhile p s : takewhile p s ++ dropwhile p s = s.
Proof.
  induction s as [|a s IH]; simpl; auto.
  destruct (p a); simpl; congruence.
Qed.

Lemma takewhile_all p s : forallb p (takewhile p s) = true.
Proof.
  induction s as [|a s IH]; simpl; auto.
  destruct (p a) eqn:E; simpl; auto. rewrite E. auto.
Qed.

Lemma dropwhile_head p s a rest :
  dropwhile p s = a :: rest -> p a = false.
Proof.
  induction s as [|b s IH]; simpl; [discriminate|].
  destruct (p b) eqn:E; auto. intros H. inversion H; subst. exact E.
Qed.

(** A pattern of one character class matches exactly one such character. *)
Lemma re_match_cls c s :
  re_match (Cls c) s =
  match s with
  | a :: rest => if cls_mem c a then Some (rest, []) else None
  | [] => None
  end.
Proof. reflexivity. Qed.

(** With a continuation that accepts anything, [c+] takes the whole run. *)
Lemma plus_cls_total {A} p (g : str -> A) : forall s,
  plus_cls p s (fun rest => Some (g rest)) =
  match s with
  | a :: s' => if p a then Some (g (dropwhile p s')) else None
  | [] => None
  end.
Proof.
  induction s as [|a s IH]; simpl; auto.
  destruct (p a); auto. rewrite IH.
  destruct s as [|b s']; simpl; auto.
  destruct (p b); auto.
Qed.

Lemma re_match_plus c s :
  re_match (Plus c) s =
  match s with
  | a :: s' =>
      if cls_mem c a then Some (dropwhile (cls_mem c) s', []) else None
  | [] => None
  end.
Proof.
  unfold re_match. simpl.
  apply (plus_cls_total (cls_mem c) (fun rest => (rest, @nil (nat * str)))).
Qed.

Lemma ltb_length_cons (a : ascii) (s t : str) :
  length t <= length s -> (length t <? length (a :: s)) = true.
Proof. intros H. apply Nat.ltb_lt. simpl. lia. Qed.

(** One scan step of the two substitutions. *)
Lemma re_sub_from_cls fuel c repl a s :
  re_sub_from (S fuel) (Cls c) repl (a :: s) =
  if cls_mem c a then repl ++ re_sub_from fuel (Cls c) repl s
  else a :: re_sub_from fuel (Cls c) repl s.
Proof.
  cbn [re_sub_from]. rewrite re_match_cls.
  destruct (cls_mem c a); auto.
  rewrite ltb_length_cons by lia. reflexivity.
Qed.

Lemma re_sub_from_plus fuel c repl a s :
  re_sub_from (S fuel) (Plus c) repl (a :: s) =
  if cls_mem c a
  then repl ++ re_sub_from fuel (Plus c) repl (dropwhile (cls_mem c) s)
  else a :: re_sub_from fuel (Plus c) repl s.
Proof.
  cbn [re_sub_from]. rewrite re_match_plus.
  destruct (cls_mem c a); auto.
  rewrite ltb_length_cons by apply dropwhile_length. reflexivity.
Qed.

(** What a substitution keeps satisfies [P] if the input and the
    replacement do. *)
Lemma re_sub_cls_Forall (P : ascii -> Prop) c repl :
  Forall P repl ->
  forall fuel s, Forall P s -> Forall P (re_sub_from fuel (Cls c) repl s).
Proof.
  intros Hr. induction fuel as [|fuel IH]; intros s Hs; [exact Hs|].
  destruct s as [|a s]; [constructor|].
  rewrite re_sub_from_cls. inversion Hs; subst.
  destruct (cls_mem c a); [apply Forall_app_intro|constructor]; auto.
Qed.

Lemma re_sub_plus_Forall (P : ascii -> Prop) c repl :
  Forall P repl ->
  forall fuel s, Forall P s -> Forall P (re_sub_from fuel (Plus c) repl s).
Proof.
  intros Hr. induction fuel as [|fuel IH]; intros s Hs; [exact Hs|].
  destruct s as [|a s]; [constructor|].
  rewrite re_sub_from_plus. inversion Hs; subst.
  destruct (cls_mem c a); [apply Forall_app_intro|constructor]; auto.
  apply IH. apply Forall_dropwhile. assumption.
Qed.

(** With enough fuel, no character of the class is left. *)
Lemma re_sub_cls_removes c repl :
  Forall (fun a => cls_mem c a = false) repl ->
  forall fuel s,
    length s <= fuel ->
    Forall (fun a => cls_mem c a = false) (re_sub_from fuel (Cls c) repl s).
Proof.
  intros Hr. induction fuel as [|fuel IH]; intros s Hs.
  - destruct s; [constructor|simpl in Hs; lia].
  - destruct s as [|a s]; [constructor|]. simpl in Hs.
    rewrite re_sub_from_cls.
    destruct (cls_mem c a) eqn:E;
      [apply Forall_app_intro|constructor]; auto; apply IH; lia.
Qed.

Lemma re_sub_plus_removes c repl :
  Forall (fun a => cls_mem c a = false) repl ->
  forall fuel s,
    length s <= fuel ->
    Forall (fun a => cls_mem c a = false) (re_sub_from fuel (Plus c) repl s).
Proof.
  intros Hr. induction fuel as [|fuel IH]; intros s Hs.
  - destruct s; [constructor|simpl in Hs; lia].
  - destruct s as [|a s]; [constructor|]. simpl in Hs.
    rewrite re_sub_from_plus.
    destruct (cls_mem c a) eqn:E;
      [apply Forall_app_intro|constructor]; auto; apply IH; try lia.
    pose proof (dropwhile_length (cls_mem c) s). lia.
Qed.

Lemma re_sub_cls_length c repl :
  length repl <= 1 ->
  forall fuel s, length (re_sub_from fuel (Cls c) repl s) <= length s.
Proof.
  intros Hr. induction fuel as [|fuel IH]; intros s; [reflexivity|].
  destruct s as [|a s]; [reflexivity|].
  rewrite re_sub_from_cls. specialize (IH s).
  destruct (cls_mem c a); [rewrite length_app|]; simpl; lia.
Qed.

Lemma re_sub_plus_length c repl :
  length repl <= 1 ->
  forall fuel s, length (re_sub_from fuel (Plus c) repl s) <= length s.
Proof.
  intros Hr. induction fuel as [|fuel IH]; intros s; [reflexivity|].
  destruct s as [|a s]; [reflexivity|].
  rewrite re_sub_from_plus.
  destruct (cls_mem c a); [rewrite length_app|]; simpl.
  - specialize (IH (dropwhile (cls_mem c) s)).
    pose proof (dropwhile_length (cls_mem c) s). lia.
  - specialize (IH s). lia.
Qed.

Lemma strip_chars_Forall (P : ascii -> Prop) cs s :
  Forall P s -> Forall P (strip_chars cs s).
Proof.
  intros H. unfold strip_chars.
  apply Forall_rev, Forall_dropwhile, Forall_rev, Forall_dropwhile, H.
Qed.

Lemma strip_chars_length cs s : length (strip_chars cs s) <= length s.
Proof.
  unfold strip_chars. rewrite length_rev.
  etransitivity; [apply dropwhile_length|]. rewrite length_rev.
  apply dropwhile_length.
Qed.

(** What [strip] returns neither starts nor ends with a stripped
    character. *)
Lemma strip_chars_head cs s a rest :
  strip_chars cs s = a :: rest -> mem a cs = false.
Proof.
  unfold strip_chars. set (q := fun a => mem a cs).
  set (t := dropwhile q s). intros H.
  assert (Ht : t = (a :: rest) ++ rev (takewhile q (rev t))).
  { rewrite <- H, <- rev_app_distr, takewhile_dropwhile, rev_involutive.
    reflexivity. }
  apply (dropwhile_head q s a (rest ++ rev (takewhile q (rev t)))).
  exact Ht.
Qed.

Lemma strip_chars_last cs s init a :
  strip_chars cs s = init ++ [a] -> mem a cs = false.
Proof.
  unfold strip_chars. set (q := fun a => mem a cs). intros H.
  apply (f_equal (@rev ascii)) in H.
  rewrite rev_involutive, rev_app_distr in H. simpl in H.
  apply (dropwhile_head q _ a _ H).
Qed.

Lemma firstn_head (n : nat) (s : str) a rest :
  firstn n s = a :: rest -> exists rest', s = a :: rest'.
Proof.
  intros H. exists (rest ++ skipn n s).
  rewrite <- (firstn_skipn n s) at 1. rewrite H. reflexivity.
Qed.

(** What [sanitize_filename] guarantees for every name: the length, the
    absence of the removed characters and of white space, and the first
    character; the last character only when nothing is truncated. *)
Lemma sanitize_filename_safe name :
  length (sanitize_filename name) <= 255 /\
  Forall (fun a => mem a forbidden = false) (sanitize_filename name) /\
  Forall (fun a => is_space a = false) (sanitize_filename name) /\
  (forall a rest,
      sanitize_filename name = a :: rest -> mem a (lit "-.") = false) /\
  (length name <= 255 ->
   forall init a,
     sanitize_filename name = init ++ [a] -> mem a (lit "-.") = false).
Proof.
  unfold sanitize_filename, re_sub.
  set (s1 := re_sub_from (length name) (Cls (CIn forbidden)) [] name).
  set (s2 := re_sub_from (length s1) (Plus CSpace) (lit "-") s1).
  assert (F1 : Forall (fun a => mem a forbidden = false) s1).
  { apply (re_sub_cls_removes (CIn forbidden) []); auto. }
  assert (F2 : Forall (fun a => mem a forbidden = false) s2).
  { apply re_sub_plus_Forall; auto. repeat constructor. }
  assert (S2 : Forall (fun a => is_space a = false) s2).
  { apply (re_sub_plus_removes CSpace (lit "-")); auto.
    repeat constructor. }
  split; [apply firstn_le_length|].
  split; [apply Forall_firstn_str, strip_chars_Forall, F2|].
  split; [apply Forall_firstn_str, strip_chars_Forall, S2|].
  split.
  - intros a rest H. apply firstn_head in H. destruct H as [rest' H].
    apply (strip_chars_head _ _ _ _ H).
  - intros Hlen init a H. rewrite firstn_all2 in H.
    + apply (strip_chars_last _ _ _ _ H).
    + etransitivity; [apply strip_chars_length|].
      etransitivity; [apply re_sub_plus_length; simpl; lia|].
      etransitivity; [apply re_sub_cls_length; simpl; lia|]. exact Hlen.
Qed.

(** C10 fails on the code: the name is cut to 255 characters after the
    hyphens and dots at its ends were stripped, so a long name can end in a
    dot.  Here the dot in position 255 of a 256 character name is kept as
    the last character. *)
Theorem sanitize_filename_truncation_keeps_dot :
  length long_name = 256 /\
  sanitize_filename long_name = repeat "a"%char 254 ++ lit "." /\
  last (sanitize_filename long_name) "a"%char = "."%char.
Proof. repeat split; vm_compute; reflexivity. Qed.

(** ** Output paths *)

Lemma join2_plain a b :
  plain_dir a = true -> forallb not_slash b = true ->
  join2 a b = a ++ [slash] ++ b.
Proof.
  unfold join2, plain_dir, startswith. intros Ha Hb.
  assert (Hs : strip_prefix [slash] b = None).
  { destruct b as [|c b]; [reflexivity|]. cbn [forallb] in Hb.
    apply andb_prop in Hb. destruct Hb as [Hc _].
    unfold not_slash in Hc. cbn [strip_prefix]. rewrite Ascii.eqb_sym.
    destruct (Ascii.eqb c slash); [discriminate|reflexivity]. }
  rewrite Hs. destruct (rev a) as [|c r]; [discriminate|].
  unfold not_slash in Ha. destruct (Ascii.eqb c slash); [discriminate|].
  reflexivity.
Qed.

Lemma plain_dir_app a b :
  b <> [] -> forallb not_slash b = true -> plain_dir (a ++ b) = true.
Proof.
  intros Hne Hb. unfold plain_dir. rewrite rev_app_distr.
  destruct (rev b) as [|c r] eqn:E.
  - apply (f_equal (@rev ascii)) in E. rewrite rev_involutive in E.
    contradiction.
  - simpl. rewrite forallb_forall in Hb. apply Hb.
    apply in_rev. rewrite E. left. reflexivity.
Qed.

Lemma join2_plain_dir a b :
  plain_dir a = true -> b <> [] -> forallb not_slash b = true ->
  plain_dir (join2 a b) = true.
Proof.
  intros Ha Hne Hb. rewrite join2_plain by assumption.
  rewrite app_assoc. apply plain_dir_app; assumption.
Qed.

Lemma path_join_2 a b c :
  plain_dir a = true -> b <> [] ->
  forallb not_slash b = true -> forallb not_slash c = true ->
  path_join a [b; c] = slashed [a; b; c].
Proof.
  intros Ha Hne Hb Hc. unfold path_join. simpl.
  rewrite (join2_plain (join2 a b) c)
    by (auto using join2_plain_dir).
  rewrite join2_plain by assumption.
  repeat rewrite <- app_assoc. reflexivity.
Qed.

Lemma path_join_3 a b c d :
  plain_dir a = true -> b <> [] -> c <> [] ->
  forallb not_slash b = true -> forallb not_slash c = true ->
  forallb not_slash d = true ->
  path_join a [b; c; d] = slashed [a; b; c; d].
Proof.
  intros Ha Hb0 Hc0 Hb Hc Hd. unfold path_join. simpl.
  rewrite (join2_plain (join2 (join2 a b) c) d)
    by (auto using join2_plain_dir).
  rewrite (join2_plain (join2 a b) c) by (auto using join2_plain_dir).
  rewrite join2_plain by assumption.
  repeat rewrite <- app_assoc. reflexivity.
Qed.

Lemma sanitize_filename_no_slash name :
  forallb not_slash (sanitize_filename name) = true.
Proof.
  destruct (sanitize_filename_safe name) as [_ [F _]].
  apply forallb_forall. rewrite Forall_forall in F.
  intros a Ha. specialize (F a Ha). unfold not_slash.
  destruct (Ascii.eqb a slash) eqn:E; auto.
  apply Ascii.eqb_eq in E. subst a. discriminate F.
Qed.

Lemma basename_no_slash p : forallb not_slash (basename p) = true.
Proof.
  unfold basename. apply forallb_forall. intros a Ha.
  apply in_rev in Ha.
  pose proof (takewhile_all not_slash (rev p)) as H.
  rewrite forallb_forall in H. auto.
Qed.

Lemma mapped_category_plain row :
  row_mapped_category row <> [] /\
  forallb not_slash (row_mapped_category row) = true.
Proof.
  unfold row_mapped_category, CATEGORY_MAPPING, dict_get.
  repeat match goal with
         | |- context [if ?b then _ else _] => destruct b
         end; split; try discriminate; reflexivity.
Qed.

Lemma dict_get_default d key default :
  (forall k v, In (k, v) d -> k <> key) -> dict_get d key default = default.
Proof.
  induction d as [|[k v] d IH]; simpl; intros H; auto.
  destruct (str_eqb k key) eqn:E.
  - apply str_eqb_eq in E. exfalso. apply (H k v); auto.
  - apply IH. intros k' v' Hin. apply (H k' v'). auto.
Qed.

(** The joined components are the slash-separated path when the directory
    argument and the components before the last are not empty and end in no
    slash. *)
Lemma output_paths_slashed cfg row :
  plain_dir (output_dir cfg) = true ->
  plain_dir (hosted_dir cfg) = true ->
  row_category row <> [] ->
  sanitize_filename (Display_Name row) <> [] ->
  let out := output_dir cfg in
  let hosted := hosted_dir cfg in
  let category := row_category row in
  let mapped := row_mapped_category row in
  let safe_name := sanitize_filename (Display_Name row) in
  forall path,
    path_join out [category; safe_name; basename path]
    = slashed [out; category; safe_name; basename path] /\
    path_join out [category; safe_name] = slashed [out; category; safe_name] /\
    path_join out [category; safe_name ++ lit "-gist"]
    = slashed [out; category; safe_name ++ lit "-gist"] /\
    path_join hosted [mapped; safe_name; basename path]
    = slashed [hosted; mapped; safe_name; basename path] /\
    path_join hosted [mapped; safe_name] = slashed [hosted; mapped; safe_name].
Proof.
  intros Ho Hh Hc Hs. cbv zeta. intros path.
  destruct (mapped_category_plain row) as [Hm0 Hm].
  pose proof (sanitize_filename_no_slash (Display_Name row)) as Hn.
  assert (Hcat : forallb not_slash (row_category row) = true)
    by apply sanitize_filename_no_slash.
  assert (Hg : forallb not_slash
                 (sanitize_filename (Display_Name row) ++ lit "-gist")
               = true)
    by (rewrite forallb_app, Hn; reflexivity).
  rewrite !path_join_3, !path_join_2 by (auto using basename_no_slash).
  repeat split.
Qed.

(** C9, amended: the archive path joins archiveDir, category, safeName and
    filename for a file, archiveDir, category and safeName for a directory,
    and archiveDir, category and safeName-gist for a gist; the hosted path,
    set for open-source licenses only, joins hostedDir, mappedCategory,
    safeName and filename for a file, and hostedDir, mappedCategory and
    safeName for a directory and also for a gist, whose hosted path has no
    -gist suffix; a repository has no path.  With directory arguments that
    are not empty and end in no slash and a non-empty sanitized category and
    name, joining is writing the components with single slashes between
    them.  A category outside the table maps to other. *)
Theorem output_path_shapes cfg row :
  let out := output_dir cfg in
  let hosted := hosted_dir cfg in
  let category := row_category row in
  let mapped := row_mapped_category row in
  let safe_name := sanitize_filename (Display_Name row) in
  (forall u,
     output_paths cfg row u =
     match u with
     | UFile _ _ _ path =>
         Some (path_join out [category; safe_name; basename path],
               hosted_if_open row
                 (path_join hosted [mapped; safe_name; basename path]))
     | UDir _ _ _ _ =>
         Some (path_join out [category; safe_name],
               hosted_if_open row (path_join hosted [mapped; safe_name]))
     | UGist _ _ =>
         Some (path_join out [category; safe_name ++ lit "-gist"],
               hosted_if_open row (path_join hosted [mapped; safe_name]))
     | URepo _ _ => None
     end) /\
  (plain_dir out = true -> plain_dir hosted = true ->
   category <> [] -> safe_name <> [] ->
   forall u,
     output_paths cfg row u =
     match u with
     | UFile _ _ _ path =>
         Some (slashed [out; category; safe_name; basename path],
               hosted_if_open row
                 (slashed [hosted; mapped; safe_name; basename path]))
     | UDir _ _ _ _ =>
         Some (slashed [out; category; safe_name],
               hosted_if_open row (slashed [hosted; mapped; safe_name]))
     | UGist _ _ =>
         Some (slashed [out; category; safe_name ++ lit "-gist"],
               hosted_if_open row (slashed [hosted; mapped; safe_name]))
     | URepo _ _ => None
     end) /\
  ((forall k v, In (k, v) CATEGORY_MAPPING -> k <> Category row) ->
   mapped = lit "other").
Proof.
  cbv zeta. split; [|split].
  - intros u. destruct u; reflexivity.
  - intros Ho Hh Hc Hs u.
    unfold output_paths, hosted_if_open.
    destruct u; auto;
      destruct (output_paths_slashed cfg row Ho Hh Hc Hs path)
        as (E1 & E2 & E3 & E4 & E5) || 
      destruct (output_paths_slashed cfg row Ho Hh Hc Hs [])
        as (E1 & E2 & E3 & E4 & E5);
      rewrite ?E1, ?E2, ?E3, ?E4, ?E5; reflexivity.
  - intros H. apply dict_get_default. exact H.
Qed.

Lemma output_path_shapes_witness :
  plain_dir (output_dir config_default) = true /\
  plain_dir (hosted_dir config_default) = true /\
  output_paths config_default row_file info_file
  = Some (lit ".myob/downloads/tooling/My-Tool/tool.py",
          Some (lit "resources/tooling/My-Tool/tool.py")).
Proof.
  split; [reflexivity|]. split; [reflexivity|].
  rewrite (proj1 (proj2 (output_path_shapes config_default row_file)));
    try reflexivity; vm_compute; discriminate.
Defined.

(** C9 as stated fails for a gist: the hosted path does not mirror the
    archive path, it lacks the -gist suffix. *)
Lemma gist_hosted_path_not_mirrored :
  output_paths config_default row_gist (UGist (lit "acme") (lit "0123abcd"))
  = Some (lit ".myob/downloads/tooling/Snippet-gist",
          Some (lit "resources/tooling/Snippet")) /\
  spec_paths config_default row_gist (UGist (lit "acme") (lit "0123abcd"))
  = Some (lit ".myob/downloads/tooling/Snippet-gist",
          lit "resources/tooling/Snippet-gist").
Proof. split; vm_compute; reflexivity. Qed.

(** ** The matcher *)

Lemma strip_prefix_app p : forall s rest,
  strip_prefix p s = Some rest <-> s = p ++ rest.
Proof.
  induction p as [|a p IH]; intros s rest; simpl.
  - split; congruence.
  - destruct s as [|b s]; [split; discriminate|].
    destruct (Ascii.eqb a b) eqn:E.
    + apply Ascii.eqb_eq in E. subst b. rewrite IH.
      split; congruence.
    + apply Ascii.eqb_neq in E. split; [discriminate|].
      intros H. inversion H. congruence.
Qed.

Lemma strip_prefix_refl p rest : strip_prefix p (p ++ rest) = Some rest.
Proof. apply strip_prefix_app. reflexivity. Qed.

Lemma takewhile_nil_dropwhile p s : takewhile p s = [] -> dropwhile p s = s.
Proof. destruct s as [|a s]; simpl; auto. destruct (p a); congruence. Qed.

Lemma dropwhile_stops p s :
  match dropwhile p s with [] => True | a :: _ => p a = false end.
Proof.
  destruct (dropwhile p s) as [|a rest] eqn:E; auto.
  apply (dropwhile_head p s a rest E).
Qed.

Lemma takewhile_app_stop p x rest :
  forallb p x = true ->
  match rest with [] => True | a :: _ => p a = false end ->
  takewhile p (x ++ rest) = x /\ dropwhile p (x ++ rest) = rest.
Proof.
  intros Hx Hr. induction x as [|a x IH]; simpl in *.
  - destruct rest as [|b rest]; auto. simpl. rewrite Hr. auto.
  - apply andb_prop in Hx. destruct Hx as [Ha Hx]. rewrite Ha.
    destruct (IH Hx) as [E1 E2]. rewrite E1, E2. auto.
Qed.

Lemma firstn_takewhile p s :
  firstn (length s - length (dropwhile p s)) s = takewhile p s.
Proof.
  rewrite <- (takewhile_dropwhile p s) at 1 3.
  rewrite length_app, Nat.add_sub.
  rewrite firstn_app, Nat.sub_diag, firstn_all. simpl.
  apply app_nil_r.
Qed.

(** The longest run decides: when the continuation accepts what follows the
    longest run, or rejects whatever follows a shorter one, [c+] behaves as
    if it took the longest run only. *)
Lemma plus_cls_longest {A} p (K : str -> option A) : forall s,
  (K (dropwhile p s) <> None \/
   forall y, y <> [] -> forallb p y = true ->
             K (y ++ dropwhile p s) = None) ->
  plus_cls p s K =
  match takewhile p s with
  | [] => None
  | _ => K (dropwhile p s)
  end.
Proof.
  induction s as [|a s IH]; intros H; simpl; auto.
  destruct (p a) eqn:Pa; auto. simpl in H. rewrite Pa in H.
  rewrite (IH H).
  destruct (takewhile p s) as [|b x] eqn:Et.
  - rewrite (takewhile_nil_dropwhile p s Et). reflexivity.
  - destruct (K (dropwhile p s)) eqn:Ek; auto.
    destruct H as [H|H]; [congruence|].
    rewrite <- (takewhile_dropwhile p s) at 1. rewrite Et.
    apply H; [discriminate|]. rewrite <- Et. apply takewhile_all.
Qed.

(** A literal in front. *)
Lemma exec_lit {A} l r s cs (k : str -> caps -> option A) :
  exec (Seq (Lit l) r) s cs k =
  match strip_prefix l s with
  | Some rest => exec r rest cs k
  | None => None
  end.
Proof. reflexivity. Qed.

(** A segment, its slash, and the rest of the pattern. *)
Lemma exec_seg_slash {A} n r s cs (k : str -> caps -> option A) :
  exec (Seq (seg n) (Seq (Lit [slash]) r)) s cs k =
  match split_segment s with
  | Some (x, rest) => exec r rest ((n, x) :: cs) k
  | None => None
  end.
Proof.
  unfold seg, split_segment. cbn [exec].
  set (p := cls_mem (CNotIn [slash])).
  rewrite plus_cls_longest.
  - destruct (takewhile p s) as [|a x] eqn:Et; auto.
    pose proof (dropwhile_stops p s) as Hd.
    destruct (dropwhile p s) as [|c rest] eqn:Ed; auto.
    cbn [strip_prefix].
    assert (Hc : Ascii.eqb slash c = true).
    { subst p. simpl in Hd. rewrite orb_false_r in Hd.
      rewrite Ascii.eqb_sym.
      destruct (Ascii.eqb c slash); [reflexivity|discriminate Hd]. }
    rewrite Hc. rewrite <- Ed, firstn_takewhile, Et. reflexivity.
  - right. intros y Hy Hp. destruct y as [|a y]; [contradiction|].
    simpl in Hp. apply andb_prop in Hp. destruct Hp as [Ha _].
    cbn [app strip_prefix].
    subst p. simpl in Ha. rewrite orb_false_r in Ha.
    rewrite Ascii.eqb_sym.
    destruct (Ascii.eqb a slash); [discriminate Ha|reflexivity].
Qed.

(** The last group of a pattern takes its longest run. *)
Lemma exec_last_group n c s cs :
  exec (Group n (Plus c)) s cs (fun rest cs' => Some (rest, cs')) =
  match takewhile (cls_mem c) s with
  | [] => None
  | x => Some (dropwhile (cls_mem c) s, (n, x) :: cs)
  end.
Proof.
  cbn [exec]. rewrite plus_cls_longest by (left; discriminate).
  rewrite firstn_takewhile.
  destruct (takewhile (cls_mem c) s); reflexivity.
Qed.

Lemma not_slash_class a :
  cls_mem (CNotIn [slash]) a = negb (Ascii.eqb a slash).
Proof. simpl. rewrite orb_false_r. reflexivity. Qed.

Lemma segment_run x : segment x <-> run (CNotIn [slash]) x.
Proof.
  unfold segment, run. rewrite forallb_forall, Forall_forall.
  split; intros [Hne H]; split; auto; intros a Ha; specialize (H a Ha).
  - rewrite not_slash_class. apply Ascii.eqb_neq in H. rewrite H.
    reflexivity.
  - rewrite not_slash_class in H. apply Ascii.eqb_neq.
    destruct (Ascii.eqb a slash); [discriminate|reflexivity].
Qed.

Lemma slash_stops rest : stops (CNotIn [slash]) (slash :: rest).
Proof. reflexivity. Qed.

Lemma split_segment_app x rest :
  segment x -> split_segment (x ++ [slash] ++ rest) = Some (x, rest).
Proof.
  intros H. apply segment_run in H. destruct H as [Hne Hx].
  unfold split_segment.
  destruct (takewhile_app_stop (cls_mem (CNotIn [slash])) x
                               ([slash] ++ rest) Hx (slash_stops rest))
    as [E1 E2].
  rewrite E1, E2. destruct x; [contradiction|reflexivity].
Qed.

Lemma split_segment_Some s x rest :
  split_segment s = Some (x, rest) ->
  segment x /\ s = x ++ [slash] ++ rest.
Proof.
  unfold split_segment. set (p := cls_mem (CNotIn [slash])).
  pose proof (takewhile_dropwhile p s) as Hs.
  pose proof (takewhile_all p s) as Ha.
  pose proof (dropwhile_stops p s) as Hd.
  destruct (takewhile p s) as [|a y]; [discriminate|].
  destruct (dropwhile p s) as [|c t]; [discriminate|].
  intros H. inversion H; subst x rest. split.
  - apply segment_run. split; [discriminate|exact Ha].
  - subst p. rewrite not_slash_class in Hd.
    destruct (Ascii.eqb c slash) eqn:E; [|discriminate].
    apply Ascii.eqb_eq in E. subst c. symmetry. exact Hs.
Qed.

(** A segment that ends the string has no slash behind it. *)
Lemma split_segment_end x : segment x -> split_segment x = None.
Proof.
  intros H. apply segment_run in H. destruct H as [_ Hx].
  unfold split_segment.
  destruct (takewhile_app_stop (cls_mem (CNotIn [slash])) x [] Hx I)
    as [_ E2].
  rewrite app_nil_r in E2. rewrite E2.
  destruct (takewhile _ x); reflexivity.
Qed.

(** *** The common tail of the file and directory patterns *)

Lemma branch_and_path_complete b p rest cs :
  segment b -> run CDot p -> stops CDot rest ->
  exec branch_and_path ([slash] ++ b ++ [slash] ++ p ++ rest) cs
       (fun rest cs' => Some (rest, cs'))
  = Some (rest, (4, p) :: (3, b) :: cs).
Proof.
  intros Hb [Hp0 Hp] Hr. unfold branch_and_path.
  rewrite exec_lit, strip_prefix_refl.
  rewrite exec_seg_slash, (split_segment_app b _ Hb).
  rewrite exec_last_group.
  destruct (takewhile_app_stop (cls_mem CDot) p rest Hp Hr) as [E1 E2].
  rewrite E1, E2. destruct p; [contradiction|reflexivity].
Qed.

Lemma branch_and_path_sound t cs0 rest cs :
  exec branch_and_path t cs0 (fun rest cs' => Some (rest, cs'))
  = Some (rest, cs) ->
  exists b p,
    segment b /\ run CDot p /\ stops CDot rest /\
    t = [slash] ++ b ++ [slash] ++ p ++ rest /\
    cs = (4, p) :: (3, b) :: cs0.
Proof.
  unfold branch_and_path. rewrite exec_lit.
  destruct (strip_prefix [slash] t) as [t1|] eqn:E0; [|discriminate].
  apply strip_prefix_app in E0. rewrite exec_seg_slash.
  destruct (split_segment t1) as [[b t2]|] eqn:E1; [|discriminate].
  apply split_segment_Some in E1. destruct E1 as [Hb E1].
  rewrite exec_last_group.
  pose proof (takewhile_dropwhile (cls_mem CDot) t2) as Hs.
  pose proof (takewhile_all (cls_mem CDot) t2) as Ha.
  pose proof (dropwhile_stops (cls_mem CDot) t2) as Hd.
  destruct (takewhile (cls_mem CDot) t2) as [|a p] eqn:Et; [discriminate|].
  intros H. inversion H; subst rest cs. clear H.
  exists b, (a :: p). split; [exact Hb|]. split; [split; [discriminate|exact Ha]|].
  split; [exact Hd|]. split; [congruence|reflexivity].
Qed.

(** *** The file and directory patterns *)

Lemma file_pattern_eq :
  file_pattern =
  owner_and_repo
    (Seq (Lit [slash])
         (Seq (Alt (Lit (lit "blob")) (Lit (lit "raw"))) branch_and_path)).
Proof. reflexivity. Qed.

Lemma dir_pattern_eq :
  dir_pattern =
  owner_and_repo (Seq (Lit [slash]) (Seq (Lit (lit "tree")) branch_and_path)).
Proof. reflexivity. Qed.

(** The host, the owner and the repository with the slash behind it. *)
Lemma exec_owner_and_repo {A} r url (k : str -> caps -> option A) :
  exec (owner_and_repo (Seq (Lit [slash]) r)) url [] k =
  match strip_prefix github url with
  | Some s1 =>
      match split_segment s1 with
      | Some (o, s2) =>
          match split_segment s2 with
          | Some (rp, s3) => exec r s3 [(2, rp); (1, o)] k
          | None => None
          end
      | None => None
      end
  | None => None
  end.
Proof.
  unfold owner_and_repo. rewrite exec_lit.
  destruct (strip_prefix github url) as [s1|]; [|reflexivity].
  rewrite exec_seg_slash.
  destruct (split_segment s1) as [[o s2]|]; [|reflexivity].
  rewrite exec_seg_slash. reflexivity.
Qed.

Lemma exec_alt_lit {A} a b r s cs (k : str -> caps -> option A) :
  exec (Seq (Alt (Lit a) (Lit b)) r) s cs k =
  match
    match strip_prefix a s with
    | Some t => exec r t cs k
    | None => None
    end
  with
  | Some v => Some v
  | None =>
      match strip_prefix b s with
      | Some t => exec r t cs k
      | None => None
      end
  end.
Proof. reflexivity. Qed.

Lemma blob_is_not_raw t : strip_prefix (lit "blob") (lit "raw" ++ t) = None.
Proof. reflexivity. Qed.

Lemma raw_is_not_blob t : strip_prefix (lit "raw") (lit "blob" ++ t) = None.
Proof. reflexivity. Qed.

Lemma tree_is_not_blob t : strip_prefix (lit "blob") (lit "tree" ++ t) = None.
Proof. reflexivity. Qed.

Lemma tree_is_not_raw t : strip_prefix (lit "raw") (lit "tree" ++ t) = None.
Proof. reflexivity. Qed.

Lemma file_pattern_complete o r b p url :
  file_url o r b p url ->
  exists rest,
    re_match file_pattern url = Some (rest, [(4, p); (3, b); (2, r); (1, o)]).
Proof.
  intros (kw & rest & Hkw & Ho & Hr & Hb & Hp & Hs & E). subst url.
  exists rest. unfold re_match.
  rewrite file_pattern_eq, exec_owner_and_repo, strip_prefix_refl.
  rewrite (split_segment_app o _ Ho), (split_segment_app r _ Hr).
  rewrite exec_alt_lit.
  destruct Hkw; subst kw.
  - rewrite strip_prefix_refl.
    rewrite (branch_and_path_complete b p rest _ Hb Hp Hs). reflexivity.
  - rewrite blob_is_not_raw, strip_prefix_refl.
    rewrite (branch_and_path_complete b p rest _ Hb Hp Hs). reflexivity.
Qed.

Lemma file_pattern_sound url rest cs :
  re_match file_pattern url = Some (rest, cs) ->
  file_url (group 1 cs) (group 2 cs) (group 3 cs) (group 4 cs) url.
Proof.
  unfold re_match. rewrite file_pattern_eq, exec_owner_and_repo.
  destruct (strip_prefix github url) as [s1|] eqn:E0; [|discriminate].
  apply strip_prefix_app in E0.
  destruct (split_segment s1) as [[o s2]|] eqn:E1; [|discriminate].
  apply split_segment_Some in E1. destruct E1 as [Ho E1].
  destruct (split_segment s2) as [[r s3]|] eqn:E2; [|discriminate].
  apply split_segment_Some in E2. destruct E2 as [Hr E2].
  rewrite exec_alt_lit.
  assert (Tail : forall kw t,
             (kw = lit "blob" \/ kw = lit "raw") -> s3 = kw ++ t ->
             exec branch_and_path t [(2, r); (1, o)]
                  (fun rest cs' => Some (rest, cs')) = Some (rest, cs) ->
             file_url (group 1 cs) (group 2 cs) (group 3 cs) (group 4 cs)
                      url).
  { intros kw t Hkw E3 H.
    apply branch_and_path_sound in H.
    destruct H as (b & p & Hb & Hp & Hs & Et & Ec). subst cs. simpl.
    exists kw, rest. repeat (split; [assumption|]). congruence. }
  destruct (strip_prefix (lit "blob") s3) as [t|] eqn:Eb.
  - apply strip_prefix_app in Eb.
    destruct (exec branch_and_path t _ _) as [v|] eqn:Et.
    + intros H. apply (Tail (lit "blob") t); auto. congruence.
    + rewrite Eb, raw_is_not_blob. discriminate.
  - destruct (strip_prefix (lit "raw") s3) as [t|] eqn:Er; [|discriminate].
    apply strip_prefix_app in Er. intros H. apply (Tail (lit "raw") t); auto.
Qed.

Lemma dir_pattern_complete o r b p url :
  dir_url o r b p url ->
  re_match file_pattern url = None /\
  exists rest,
    re_match dir_pattern url = Some (rest, [(4, p); (3, b); (2, r); (1, o)]).
Proof.
  intros (rest & Ho & Hr & Hb & Hp & Hs & E). subst url.
  unfold re_match. split.
  - rewrite file_pattern_eq, exec_owner_and_repo, strip_prefix_refl.
    rewrite (split_segment_app o _ Ho), (split_segment_app r _ Hr).
    rewrite exec_alt_lit, tree_is_not_blob, tree_is_not_raw. reflexivity.
  - exists rest.
    rewrite dir_pattern_eq, exec_owner_and_repo, strip_prefix_refl.
    rewrite (split_segment_app o _ Ho), (split_segment_app r _ Hr).
    rewrite exec_lit, strip_prefix_refl.
    rewrite (branch_and_path_complete b p rest _ Hb Hp Hs). reflexivity.
Qed.

Lemma dir_pattern_sound url rest cs :
  re_match dir_pattern url = Some (rest, cs) ->
  dir_url (group 1 cs) (group 2 cs) (group 3 cs) (group 4 cs) url.
Proof.
  unfold re_match. rewrite dir_pattern_eq, exec_owner_and_repo.
  destruct (strip_prefix github url) as [s1|] eqn:E0; [|discriminate].
  apply strip_prefix_app in E0.
  destruct (split_segment s1) as [[o s2]|] eqn:E1; [|discriminate].
  apply split_segment_Some in E1. destruct E1 as [Ho E1].
  destruct (split_segment s2) as [[r s3]|] eqn:E2; [|discriminate].
  apply split_segment_Some in E2. destruct E2 as [Hr E2].
  rewrite exec_lit.
  destruct (strip_prefix (lit "tree") s3) as [t|] eqn:Eb; [|discriminate].
  apply strip_prefix_app in Eb. intros H.
  apply branch_and_path_sound in H.
  destruct H as (b & p & Hb & Hp & Hs & Et & Ec). subst cs. simpl.
  exists rest. repeat (split; [assumption|]). congruence.
Qed.

(** *** The repository pattern *)

Lemma repo_pattern_eq :
  repo_pattern = owner_and_repo (Seq (Opt (Lit [slash])) Eol).
Proof. reflexivity. Qed.

Lemma at_eol_true t : at_eol t = true -> t = [] \/ t = [newline].
Proof.
  destruct t as [|a [|b t]]; simpl; auto; [|discriminate].
  intros H. apply Ascii.eqb_eq in H. subst a. auto.
Qed.

(** The repository segment, an optional slash and the end.  A shorter run
    than the longest can only be followed by the end when the longest one
    is, so the longest run is the group. *)
Lemma exec_repo_tail n s cs :
  exec (Seq (seg n) (Seq (Opt (Lit [slash])) Eol)) s cs
       (fun rest cs' => Some (rest, cs')) =
  match takewhile (cls_mem (CNotIn [slash])) s with
  | [] => None
  | x =>
      match dropwhile (cls_mem (CNotIn [slash])) s with
      | [] => Some ([], (n, x) :: cs)
      | _ :: t => if at_eol t then Some (t, (n, x) :: cs) else None
      end
  end.
Proof.
  unfold seg. cbn [exec]. set (p := cls_mem (CNotIn [slash])).
  pose proof (dropwhile_stops p s) as Hd.
  rewrite plus_cls_longest.
  - rewrite firstn_takewhile.
    destruct (takewhile p s) as [|a x]; [reflexivity|].
    destruct (dropwhile p s) as [|c t]; [reflexivity|].
    subst p. rewrite not_slash_class in Hd.
    destruct (Ascii.eqb c slash) eqn:E; [|discriminate].
    apply Ascii.eqb_eq in E. subst c. cbn [strip_prefix].
    rewrite Ascii.eqb_refl.
    destruct (at_eol t) eqn:Et; [reflexivity|].
    destruct t; [discriminate|reflexivity].
  - destruct (dropwhile p s) as [|c t].
    + left. discriminate.
    + right. intros y Hy Hp. destruct y as [|a y]; [contradiction|].
      simpl in Hp. apply andb_prop in Hp. destruct Hp as [Ha _].
      subst p. rewrite not_slash_class in Ha.
      cbn [app strip_prefix]. rewrite Ascii.eqb_sym.
      destruct (Ascii.eqb a slash); [discriminate|].
      destruct y; reflexivity.
Qed.

Lemma exec_repo_pattern url :
  re_match repo_pattern url =
  match strip_prefix github url with
  | Some s1 =>
      match split_segment s1 with
      | Some (o, s2) =>
          match takewhile (cls_mem (CNotIn [slash])) s2 with
          | [] => None
          | x =>
              match dropwhile (cls_mem (CNotIn [slash])) s2 with
              | [] => Some ([], [(2, x); (1, o)])
              | _ :: t =>
                  if at_eol t then Some (t, [(2, x); (1, o)]) else None
              end
          end
      | None => None
      end
  | None => None
  end.
Proof.
  unfold re_match. rewrite repo_pattern_eq. unfold owner_and_repo.
  rewrite exec_lit.
  destruct (strip_prefix github url) as [s1|]; [|reflexivity].
  rewrite exec_seg_slash.
  destruct (split_segment s1) as [[o s2]|]; [|reflexivity].
  apply exec_repo_tail.
Qed.

Lemma repo_pattern_sound url rest cs :
  re_match repo_pattern url = Some (rest, cs) ->
  repo_url (group 1 cs) (group 2 cs) url.
Proof.
  rewrite exec_repo_pattern.
  destruct (strip_prefix github url) as [s1|] eqn:E0; [|discriminate].
  apply strip_prefix_app in E0.
  destruct (split_segment s1) as [[o s2]|] eqn:E1; [|discriminate].
  apply split_segment_Some in E1. destruct E1 as [Ho E1].
  set (p := cls_mem (CNotIn [slash])).
  pose proof (takewhile_dropwhile p s2) as Hs.
  pose proof (takewhile_all p s2) as Ha.
  pose proof (dropwhile_stops p s2) as Hd.
  destruct (takewhile p s2) as [|a x]; [discriminate|].
  assert (Hx : segment (a :: x))
    by (apply segment_run; split; [discriminate|exact Ha]).
  destruct (dropwhile p s2) as [|c t].
  - intros H. inversion H; subst rest cs. simpl.
    exists []. split; [auto|]. split; [exact Ho|]. split; [exact Hx|].
    congruence.
  - subst p. rewrite not_slash_class in Hd.
    destruct (Ascii.eqb c slash) eqn:E; [|discriminate].
    apply Ascii.eqb_eq in E. subst c.
    destruct (at_eol t) eqn:Et; [|discriminate].
    intros H. inversion H; subst rest cs. simpl.
    exists (slash :: t). split.
    + apply at_eol_true in Et. destruct Et; subst t; auto.
    + split; [exact Ho|]. split; [exact Hx|]. congruence.
Qed.

Lemma repo_pattern_complete o r url :
  repo_url o r url ->
  re_match file_pattern url = None /\
  re_match dir_pattern url = None /\
  exists rest, re_match repo_pattern url = Some (rest, [(2, r); (1, o)]).
Proof.
  intros (tail & Ht & Ho & Hr & E). subst url.
  assert (Hsplit : split_segment (r ++ tail) = None \/
                   exists t, (t = [] \/ t = [newline]) /\
                             split_segment (r ++ tail) = Some (r, t)).
  { destruct Ht as [Ht|[Ht|Ht]]; subst tail.
    - left. rewrite app_nil_r. apply split_segment_end, Hr.
    - right. exists []. split; [auto|]. apply (split_segment_app r [] Hr).
    - right. exists [newline]. split; [auto|].
      apply (split_segment_app r [newline] Hr). }
  unfold re_match at 1 2.
  rewrite file_pattern_eq, dir_pattern_eq, !exec_owner_and_repo.
  rewrite strip_prefix_refl, (split_segment_app o _ Ho).
  split; [|split].
  - destruct Hsplit as [Hn|(t & Ht' & Hn)]; rewrite Hn; [reflexivity|].
    destruct Ht'; subst t; reflexivity.
  - destruct Hsplit as [Hn|(t & Ht' & Hn)]; rewrite Hn; [reflexivity|].
    destruct Ht'; subst t; reflexivity.
  - rewrite exec_repo_pattern, strip_prefix_refl, (split_segment_app o _ Ho).
    apply segment_run in Hr. destruct Hr as [Hr0 Hr].
    assert (Hst : stops (CNotIn [slash]) tail)
      by (destruct Ht as [Ht|[Ht|Ht]]; subst tail; reflexivity).
    destruct (takewhile_app_stop (cls_mem (CNotIn [slash])) r tail Hr Hst)
      as [E1 E2].
    rewrite E1, E2. destruct r as [|a r]; [contradiction|].
    destruct Ht as [Ht|[Ht|Ht]]; subst tail; eexists; reflexivity.
Qed.

(** *** The gist pattern *)

Lemma gist_pattern_eq :
  gist_pattern =
  Seq (Lit gist_github)
      (Seq (seg 1) (Seq (Lit [slash]) (Group 2 (Plus gist_id_class)))).
Proof. reflexivity. Qed.

Lemma gist_host_differs t : strip_prefix github (gist_github ++ t) = None.
Proof. reflexivity. Qed.

Lemma gist_pattern_sound url rest cs :
  re_match gist_pattern url = Some (rest, cs) ->
  gist_url (group 1 cs) (group 2 cs) url.
Proof.
  unfold re_match. rewrite gist_pattern_eq, exec_lit.
  destruct (strip_prefix gist_github url) as [s1|] eqn:E0; [|discriminate].
  apply strip_prefix_app in E0. rewrite exec_seg_slash.
  destruct (split_segment s1) as [[o s2]|] eqn:E1; [|discriminate].
  apply split_segment_Some in E1. destruct E1 as [Ho E1].
  rewrite exec_last_group.
  pose proof (takewhile_dropwhile (cls_mem gist_id_class) s2) as Hs.
  pose proof (takewhile_all (cls_mem gist_id_class) s2) as Ha.
  pose proof (dropwhile_stops (cls_mem gist_id_class) s2) as Hd.
  destruct (takewhile (cls_mem gist_id_class) s2) as [|a g];
    [discriminate|].
  intros H. inversion H; subst rest cs. simpl.
  exists (dropwhile (cls_mem gist_id_class) s2).
  split; [exact Ho|]. split; [split; [discriminate|exact Ha]|].
  split; [exact Hd|]. congruence.
Qed.

Lemma gist_pattern_complete o g url :
  gist_url o g url ->
  re_match file_pattern url = None /\
  re_match dir_pattern url = None /\
  re_match repo_pattern url = None /\
  exists rest, re_match gist_pattern url = Some (rest, [(2, g); (1, o)]).
Proof.
  intros (rest & Ho & [Hg0 Hg] & Hs & E). subst url.
  unfold re_match.
  rewrite file_pattern_eq, dir_pattern_eq, repo_pattern_eq, gist_pattern_eq.
  unfold owner_and_repo. rewrite !exec_lit, gist_host_differs.
  repeat (split; [reflexivity|]).
  exists rest. rewrite strip_prefix_refl, exec_seg_slash.
  rewrite (split_segment_app o _ Ho), exec_last_group.
  destruct (takewhile_app_stop (cls_mem gist_id_class) g rest Hg Hs)
    as [E1 E2].
  rewrite E1, E2. destruct g; [contradiction|reflexivity].
Qed.

(** *** parse_github_url *)

(** The loop over the patterns, written out. *)
Lemma parse_github_url_order url :
  parse_github_url url =
  match re_match file_pattern url with
  | Some (_, cs) =>
      Some (UFile (group 1 cs) (group 2 cs) (group 3 cs) (group 4 cs))
  | None =>
      match re_match dir_pattern url with
      | Some (_, cs) =>
          Some (UDir (group 1 cs) (group 2 cs) (group 3 cs) (group 4 cs))
      | None =>
          match re_match repo_pattern url with
          | Some (_, cs) => Some (URepo (group 1 cs) (group 2 cs))
          | None =>
              match re_match gist_pattern url with
              | Some (_, cs) => Some (UGist (group 1 cs) (group 2 cs))
              | None => None
              end
          end
      end
  end.
Proof.
  unfold parse_github_url, patterns. cbn [first_match].
  destruct (re_match file_pattern url) as [[? ?]|]; [reflexivity|].
  destruct (re_match dir_pattern url) as [[? ?]|]; [reflexivity|].
  destruct (re_match repo_pattern url) as [[? ?]|]; [reflexivity|].
  destruct (re_match gist_pattern url) as [[? ?]|]; reflexivity.
Qed.

(** C1: a URL of one of the four shapes is classified as that variant with
    the fields the shape names; a string of none of the shapes is not
    classified; the patterns are tried in the order file, directory,
    repository, gist and the first match is returned. *)
Theorem parse_github_url_classifies :
  (forall o r b p url,
      file_url o r b p url -> parse_github_url url = Some (UFile o r b p)) /\
  (forall o r b p url,
      dir_url o r b p url -> parse_github_url url = Some (UDir o r b p)) /\
  (forall o r url,
      repo_url o r url -> parse_github_url url = Some (URepo o r)) /\
  (forall o g url,
      gist_url o g url -> parse_github_url url = Some (UGist o g)) /\
  (forall url,
      (forall o r b p, ~ file_url o r b p url) ->
      (forall o r b p, ~ dir_url o r b p url) ->
      (forall o r, ~ repo_url o r url) ->
      (forall o g, ~ gist_url o g url) ->
      parse_github_url url = None) /\
  (forall url,
      parse_github_url url =
      match re_match file_pattern url with
      | Some (_, cs) =>
          Some (UFile (group 1 cs) (group 2 cs) (group 3 cs) (group 4 cs))
      | None =>
          match re_match dir_pattern url with
          | Some (_, cs) =>
              Some (UDir (group 1 cs) (group 2 cs) (group 3 cs) (group 4 cs))
          | None =>
              match re_match repo_pattern url with
              | Some (_, cs) => Some (URepo (group 1 cs) (group 2 cs))
              | None =>
                  match re_match gist_pattern url with
                  | Some (_, cs) => Some (UGist (group 1 cs) (group 2 cs))
                  | None => None
                  end
              end
          end
      end).
Proof.
  split; [|split; [|split; [|split; [|split]]]].
  - intros o r b p url H. rewrite parse_github_url_order.
    destruct (file_pattern_complete o r b p url H) as [rest E].
    rewrite E. reflexivity.
  - intros o r b p url H. rewrite parse_github_url_order.
    destruct (dir_pattern_complete o r b p url H) as [E1 [rest E2]].
    rewrite E1, E2. reflexivity.
  - intros o r url H. rewrite parse_github_url_order.
    destruct (repo_pattern_complete o r url H) as [E1 [E2 [rest E3]]].
    rewrite E1, E2, E3. reflexivity.
  - intros o g url H. rewrite parse_github_url_order.
    destruct (gist_pattern_complete o g url H) as [E1 [E2 [E3 [rest E4]]]].
    rewrite E1, E2, E3, E4. reflexivity.
  - intros url Hf Hd Hr Hg. rewrite parse_github_url_order.
    destruct (re_match file_pattern url) as [[rest cs]|] eqn:E1.
    { exfalso. eapply Hf, file_pattern_sound, E1. }
    destruct (re_match dir_pattern url) as [[rest cs]|] eqn:E2.
    { exfalso. eapply Hd, dir_pattern_sound, E2. }
    destruct (re_match repo_pattern url) as [[rest cs]|] eqn:E3.
    { exfalso. eapply Hr, repo_pattern_sound, E3. }
    destruct (re_match gist_pattern url) as [[rest cs]|] eqn:E4.
    { exfalso. eapply Hg, gist_pattern_sound, E4. }
    reflexivity.
  - apply parse_github_url_order.
Qed.

Lemma segment_literal_acme : segment (lit "acme").
Proof. split; [discriminate|repeat constructor; discriminate]. Qed.

Lemma segment_literal_repo : segment (lit "repo").
Proof. split; [discriminate|repeat constructor; discriminate]. Qed.

Lemma segment_literal_main : segment (lit "main").
Proof. split; [discriminate|repeat constructor; discriminate]. Qed.

Lemma parse_github_url_classifies_witness :
  file_url (lit "acme") (lit "repo") (lit "main") (lit "cmd/tool.py")
           (lit "https://github.com/acme/repo/blob/main/cmd/tool.py") /\
  parse_github_url (lit "https://github.com/acme/repo/blob/main/cmd/tool.py")
  = Some info_file.
Proof.
  assert (H : file_url (lit "acme") (lit "repo") (lit "main")
                       (lit "cmd/tool.py")
                       (lit "https://github.com/acme/repo/blob/main/cmd/tool.py")).
  { exists (lit "blob"), [].
    split; [left; reflexivity|].
    split; [exact segment_literal_acme|].
    split; [exact segment_literal_repo|].
    split; [exact segment_literal_main|].
    split; [split; [discriminate|reflexivity]|].
    split; [exact I|reflexivity]. }
  split; [exact H|].
  exact (proj1 parse_github_url_classifies _ _ _ _ _ H).
Defined.

(** Classification on sample links, by evaluation. *)
Example parse_examples :
  parse_github_url (lit "https://github.com/acme/repo/raw/v1/a.txt")
  = Some (UFile (lit "acme") (lit "repo") (lit "v1") (lit "a.txt")) /\
  parse_github_url (lit "https://github.com/acme/repo/tree/main/docs/guide")
  = Some (UDir (lit "acme") (lit "repo") (lit "main") (lit "docs/guide")) /\
  parse_github_url (lit "https://github.com/acme/repo/")
  = Some (URepo (lit "acme") (lit "repo")) /\
  parse_github_url (lit "https://gist.github.com/acme/0123abcd#file-x")
  = Some (UGist (lit "acme") (lit "0123abcd")) /\
  parse_github_url (lit "https://github.com/acme/repo/issues/3") = None /\
  parse_github_url (lit "https://example.com/acme/repo") = None.
Proof. repeat split; vm_compute; reflexivity. Qed.

(** * Further properties *)

(** ** sanitize_filename, continued *)

Lemma re_sub_cls_fixed c repl : forall fuel s,
  Forall (fun a => cls_mem c a = false) s ->
  re_sub_from fuel (Cls c) repl s = s.
Proof.
  induction fuel as [|fuel IH]; intros s H; [reflexivity|].
  destruct s as [|a s]; [reflexivity|]. inversion H; subst.
  rewrite re_sub_from_cls.
  match goal with E : cls_mem c a = false |- _ => rewrite E end.
  rewrite IH by assumption. reflexivity.
Qed.

Lemma re_sub_plus_fixed c repl : forall fuel s,
  Forall (fun a => cls_mem c a = false) s ->
  re_sub_from fuel (Plus c) repl s = s.
Proof.
  induction fuel as [|fuel IH]; intros s H; [reflexivity|].
  destruct s as [|a s]; [reflexivity|]. inversion H; subst.
  rewrite re_sub_from_plus.
  match goal with E : cls_mem c a = false |- _ => rewrite E end.
  rewrite IH by assumption. reflexivity.
Qed.

Lemma dropwhile_fixed p s :
  match s with [] => True | a :: _ => p a = false end -> dropwhile p s = s.
Proof. destruct s as [|a s]; simpl; auto. intros H. rewrite H. auto. Qed.

Lemma strip_chars_fixed cs s :
  ends_satisfy (fun a => negb (mem a cs)) s -> strip_chars cs s = s.
Proof.
  intros [Hh Hl]. unfold strip_chars.
  rewrite (dropwhile_fixed _ s).
  - rewrite (dropwhile_fixed _ (rev s)); [apply rev_involutive|].
    destruct (rev s) as [|a r]; auto. apply negb_true_iff. exact Hl.
  - destruct s as [|a r]; auto. apply negb_true_iff. exact Hh.
Qed.

(** A name that needs no change is returned as it is. *)
Lemma sanitize_filename_fixed name :
  Forall (fun a => mem a forbidden = false) name ->
  Forall (fun a => is_space a = false) name ->
  ends_satisfy (fun a => negb (mem a (lit "-."))) name ->
  length name <= 255 ->
  sanitize_filename name = name.
Proof.
  intros Hf Hs He Hl. unfold sanitize_filename, re_sub.
  rewrite (re_sub_cls_fixed (CIn forbidden) [] _ name Hf).
  rewrite (re_sub_plus_fixed CSpace (lit "-") _ name Hs).
  rewrite (strip_chars_fixed _ name He).
  apply firstn_all2. exact Hl.
Qed.

(** X1: on names of at most 255 characters [sanitize_filename] is
    idempotent: a sanitized name is left as it is. *)
Theorem sanitize_filename_idempotent name :
  length name <= 255 ->
  sanitize_filename (sanitize_filename name) = sanitize_filename name.
Proof.
  intros Hl.
  destruct (sanitize_filename_safe name) as (L & F & S & Hh & Ht).
  apply sanitize_filename_fixed; auto.
  split.
  - destruct (sanitize_filename name) as [|a r] eqn:E; auto.
    apply negb_true_iff. apply (Hh a r). reflexivity.
  - destruct (rev (sanitize_filename name)) as [|a r] eqn:E; auto.
    apply negb_true_iff. apply (Ht Hl (rev r) a).
    apply (f_equal (@rev ascii)) in E. rewrite rev_involutive in E.
    exact E.
Qed.

Lemma sanitize_filename_idempotent_witness :
  length (lit "  My: Tool / v2.  ") <= 255 /\
  sanitize_filename (lit "  My: Tool / v2.  ") = lit "My-Tool-v2" /\
  sanitize_filename (sanitize_filename (lit "  My: Tool / v2.  "))
  = sanitize_filename (lit "  My: Tool / v2.  ").
Proof.
  assert (H : length (lit "  My: Tool / v2.  ") <= 255) by (simpl; lia).
  split; [exact H|]. split; [reflexivity|].
  exact (sanitize_filename_idempotent _ H).
Defined.

(** X2: what [sanitize_filename] returns for every name: at most 255
    characters and no more than the name had; only characters of the name,
    or hyphens; none of the characters of the first substitution and no
    white space; no hyphen or dot in front, and none at the end when the
    name has at most 255 characters. *)
Theorem sanitize_filename_guarantees name :
  length (sanitize_filename name) <= 255 /\
  length (sanitize_filename name) <= length name /\
  Forall (fun a => In a name \/ a = "-"%char) (sanitize_filename name) /\
  Forall (fun a => mem a forbidden = false /\ is_space a = false)
         (sanitize_filename name) /\
  (forall a rest,
      sanitize_filename name = a :: rest ->
      a <> "-"%char /\ a <> "."%char) /\
  (length name <= 255 ->
   forall init a,
     sanitize_filename name = init ++ [a] ->
     a <> "-"%char /\ a <> "."%char).
Proof.
  assert (Hd : forall a, mem a (lit "-.") = false ->
                         a <> "-"%char /\ a <> "."%char).
  { intros a H. split; intros E; subst a; discriminate H. }
  destruct (sanitize_filename_safe name) as (L & F & S & Hh & Ht).
  split; [exact L|]. split; [|split; [|split; [|split]]].
  - unfold sanitize_filename, re_sub.
    etransitivity; [rewrite length_firstn; apply Nat.le_min_r|].
    etransitivity; [apply strip_chars_length|].
    etransitivity; [apply re_sub_plus_length; simpl; lia|].
    apply re_sub_cls_length. simpl. lia.
  - unfold sanitize_filename, re_sub.
    apply Forall_firstn_str, strip_chars_Forall, re_sub_plus_Forall.
    + apply Forall_cons; [right; reflexivity|apply Forall_nil].
    + apply re_sub_cls_Forall; [constructor|].
      apply Forall_forall. intros a Ha. left. exact Ha.
  - rewrite Forall_forall in *. intros a Ha. split; auto.
  - intros a rest E. apply Hd. apply (Hh a rest E).
  - intros Hl init a E. apply Hd. apply (Ht Hl init a E).
Qed.

Lemma sanitize_filename_guarantees_witness :
  length (lit "Tool.") <= 255 /\
  forall init a,
    sanitize_filename (lit "Tool.") = init ++ [a] ->
    a <> "-"%char /\ a <> "."%char.
Proof.
  assert (H : length (lit "Tool.") <= 255) by (simpl; lia).
  split; [exact H|].
  exact (proj2 (proj2 (proj2 (proj2 (proj2
           (sanitize_filename_guarantees (lit "Tool.")))))) H).
Defined.

Lemma In_dropwhile p (a : ascii) s :
  In a s -> p a = false -> In a (dropwhile p s).
Proof.
  induction s as [|b s IH]; simpl; auto. intros [E|H] Hp.
  - subst b. rewrite Hp. left. reflexivity.
  - destruct (p b); [auto|right; exact H].
Qed.

Lemma dropwhile_all p s : forallb p s = true -> dropwhile p s = [].
Proof.
  induction s as [|a s IH]; simpl; auto. intros H.
  apply andb_prop in H. destruct H as [Ha Hs]. rewrite Ha. auto.
Qed.

(** A character outside the class survives a substitution. *)
Lemma re_sub_cls_keeps c repl a : forall fuel s,
  In a s -> cls_mem c a = false -> In a (re_sub_from fuel (Cls c) repl s).
Proof.
  induction fuel as [|fuel IH]; intros s Hin Ha; [exact Hin|].
  destruct s as [|b s]; [contradiction|]. rewrite re_sub_from_cls.
  destruct Hin as [E|Hin].
  - subst b. rewrite Ha. left. reflexivity.
  - destruct (cls_mem c b); [apply in_or_app|]; right; auto.
Qed.

Lemma re_sub_plus_keeps c repl a : forall fuel s,
  In a s -> cls_mem c a = false -> In a (re_sub_from fuel (Plus c) repl s).
Proof.
  induction fuel as [|fuel IH]; intros s Hin Ha; [exact Hin|].
  destruct s as [|b s]; [contradiction|]. rewrite re_sub_from_plus.
  destruct Hin as [E|Hin].
  - subst b. rewrite Ha. left. reflexivity.
  - destruct (cls_mem c b); [apply in_or_app|]; right; auto.
    apply IH; auto. apply In_dropwhile; auto.
Qed.

Lemma strip_chars_keeps cs a s :
  In a s -> mem a cs = false -> In a (strip_chars cs s).
Proof.
  intros Hin Ha. unfold strip_chars.
  apply -> in_rev. apply In_dropwhile; [|exact Ha].
  apply -> in_rev. apply In_dropwhile; assumption.
Qed.

(** X3: [sanitize_filename] returns the empty string exactly for the names
    made of removable characters only: those of the first substitution,
    white space, hyphens and dots. *)
Theorem sanitize_filename_empty_iff name :
  sanitize_filename name = [] <-> forallb removable name = true.
Proof.
  unfold sanitize_filename, re_sub.
  set (s1 := re_sub_from (length name) (Cls (CIn forbidden)) [] name).
  set (s2 := re_sub_from (length s1) (Plus CSpace) (lit "-") s1).
  split.
  - intros H. apply forallb_forall. intros a Ha.
    destruct (removable a) eqn:E; [reflexivity|exfalso].
    unfold removable in E.
    apply orb_false_elim in E. destruct E as [E E3].
    apply orb_false_elim in E. destruct E as [E1 E2].
    assert (H1 : In a s1) by (apply re_sub_cls_keeps; assumption).
    assert (H2 : In a s2) by (apply re_sub_plus_keeps; assumption).
    assert (H3 : In a (strip_chars (lit "-.") s2))
      by (apply strip_chars_keeps; assumption).
    destruct (strip_chars (lit "-.") s2); [contradiction|discriminate].
  - intros H. rewrite forallb_forall in H.
    assert (R1 : Forall (fun a => removable a = true) s1).
    { apply re_sub_cls_Forall; [constructor|]. apply Forall_forall, H. }
    assert (F1 : Forall (fun a => mem a forbidden = false) s1).
    { apply (re_sub_cls_removes (CIn forbidden) []); auto. }
    assert (R2 : Forall (fun a => removable a = true) s2).
    { apply re_sub_plus_Forall; [repeat constructor|exact R1]. }
    assert (F2 : Forall (fun a => mem a forbidden = false) s2).
    { apply re_sub_plus_Forall; [repeat constructor|exact F1]. }
    assert (S2 : Forall (fun a => is_space a = false) s2).
    { apply (re_sub_plus_removes CSpace (lit "-")); auto.
      repeat constructor. }
    assert (Q : forallb (fun a => mem a (lit "-.")) s2 = true).
    { apply forallb_forall. intros a Ha.
      rewrite Forall_forall in R2, F2, S2.
      specialize (R2 a Ha). unfold removable in R2.
      rewrite (F2 a Ha), (S2 a Ha) in R2. exact R2. }
    unfold strip_chars. rewrite (dropwhile_all _ s2 Q). reflexivity.
Qed.

(** ** parse_github_url, continued *)

(** X4: whatever [parse_github_url] returns is justified by the string: a
    variant is returned only for a URL of its shape, with the fields as the
    shape has them.  So an owner, a repository or a branch is never empty
    and holds no slash, a path holds no newline, and the URL starts with
    the host of the pattern. *)
Theorem parse_github_url_sound url :
  match parse_github_url url with
  | Some (UFile o r b p) => file_url o r b p url
  | Some (UDir o r b p) => dir_url o r b p url
  | Some (URepo o r) => repo_url o r url
  | Some (UGist o g) => gist_url o g url
  | None => True
  end.
Proof.
  rewrite parse_github_url_order.
  destruct (re_match file_pattern url) as [[rest cs]|] eqn:E1.
  { apply (file_pattern_sound url rest cs E1). }
  destruct (re_match dir_pattern url) as [[rest cs]|] eqn:E2.
  { apply (dir_pattern_sound url rest cs E2). }
  destruct (re_match repo_pattern url) as [[rest cs]|] eqn:E3.
  { apply (repo_pattern_sound url rest cs E3). }
  destruct (re_match gist_pattern url) as [[rest cs]|] eqn:E4.
  { apply (gist_pattern_sound url rest cs E4). }
  exact I.
Qed.

Lemma startswith_false_strip s p :
  startswith s p = false -> strip_prefix p s = None.
Proof.
  unfold startswith. destruct (strip_prefix p s); [discriminate|auto].
Qed.

(** X5: a string that starts with neither [https://github.com/] nor
    [https://gist.github.com/] is not classified, whatever follows: other
    hosts, other schemes and leading white space are all refused. *)
Theorem parse_github_url_requires_host url :
  startswith url github = false ->
  startswith url gist_github = false ->
  parse_github_url url = None.
Proof.
  intros H1 H2.
  apply startswith_false_strip in H1. apply startswith_false_strip in H2.
  rewrite parse_github_url_order. unfold re_match.
  rewrite file_pattern_eq, dir_pattern_eq, repo_pattern_eq, gist_pattern_eq.
  unfold owner_and_repo. rewrite !exec_lit, H1, H2. reflexivity.
Qed.

Lemma parse_github_url_requires_host_witness :
  startswith (lit "http://github.com/acme/repo") github = false /\
  startswith (lit "http://github.com/acme/repo") gist_github = false /\
  parse_github_url (lit "http://github.com/acme/repo") = None.
Proof.
  split; [reflexivity|]. split; [reflexivity|].
  apply parse_github_url_requires_host; reflexivity.
Defined.

(** ** download_github_file, continued *)

Lemma writes_app a b : writes (a ++ b) = writes a ++ writes b.
Proof.
  induction a as [|e a IH]; simpl; auto.
  destruct e; simpl; rewrite ?IH; auto.
Qed.

(** An attempt on a file reference that is answered with 200, with a
    working file system. *)
Lemma try_block_file_ok w o r b p out tr rsp :
  http_get w (length tr) (contents_url o r b p) accept_raw = Resp rsp ->
  status_code rsp = 200%Z ->
  fs_raises w (length tr + 1) = false ->
  fs_raises w (length tr + 2) = false ->
  fs_raises w (length tr + 3) = false ->
  try_block w (UFile o r b p) out tr
  = (tr ++ [EvGet (contents_url o r b p) accept_raw;
            EvMakedirs (dirname out); EvOpen out;
            EvWrite out (content rsp)], Ok true).
Proof.
  intros Hget H200 F1 F2 F3.
  unfold try_block, branches, bind, requests_get.
  rewrite Hget, H200. cbn [Z.eqb Pos.eqb].
  unfold makedirs, open_, write, fs_call, ret.
  rewrite length_app. cbn [length]. rewrite F1. cbn beta iota zeta.
  rewrite !length_app. cbn [length].
  replace (length tr + 1 + 1) with (length tr + 2) by lia.
  rewrite F2. cbn beta iota zeta.
  rewrite !length_app. cbn [length].
  replace (length tr + 1 + 1 + 1) with (length tr + 3) by lia.
  rewrite F3. cbn beta iota zeta.
  repeat rewrite <- app_assoc. reflexivity.
Qed.

(** X6: a fetch of a file that is refused [k] times, with [k] no more than
    the retries left, and then answered with 200 succeeds, provided that
    the three file-system calls that follow this answer ([os.makedirs],
    [open] and [write]) do not raise: the same request is sent [k + 1]
    times, the backoff waits of [k] retries are slept, and the content of
    the answer is written to the output path, once. *)
Theorem fetch_recovers_after_refusals w o r b p out mr rsp :
  forall k rc tr,
    rc + k <= mr ->
    (forall i, i < k ->
       refused (http_get w (length tr + 3 * i) (contents_url o r b p)
                         accept_raw)) ->
    http_get w (length tr + 3 * k) (contents_url o r b p) accept_raw
    = Resp rsp ->
    status_code rsp = 200%Z ->
    (forall j, 1 <= j <= 3 -> fs_raises w (length tr + 3 * k + j) = false) ->
    snd (download_github_file w (UFile o r b p) out rc mr tr) = true /\
    requests (fst (download_github_file w (UFile o r b p) out rc mr tr))
    = requests tr ++ repeat (contents_url o r b p, accept_raw) (k + 1) /\
    writes (fst (download_github_file w (UFile o r b p) out rc mr tr))
    = writes tr ++ [(out, content rsp)] /\
    exists us,
      length us = k /\
      sleeps (fst (download_github_file w (UFile o r b p) out rc mr tr))
      = sleeps tr ++ backoff_waits rc us.
Proof.
  induction k as [|k IH]; intros rc tr Hk Href Hget H200 Hfs;
    rewrite download_github_file_eq.
  - rewrite Nat.mul_0_r, Nat.add_0_r in Hget.
    rewrite (try_block_file_ok w o r b p out tr rsp Hget H200).
    + simpl. rewrite requests_app, writes_app, sleeps_app. simpl.
      repeat split; auto. exists []. split; reflexivity.
    + specialize (Hfs 1). rewrite Nat.mul_0_r, Nat.add_0_r in Hfs.
      apply Hfs. lia.
    + specialize (Hfs 2). rewrite Nat.mul_0_r, Nat.add_0_r in Hfs.
      apply Hfs. lia.
    + specialize (Hfs 3). rewrite Nat.mul_0_r, Nat.add_0_r in Hfs.
      apply Hfs. lia.
  - assert (H0 : refused (http_get w (length tr) (contents_url o r b p)
                                   accept_raw)).
    { specialize (Href 0). rewrite Nat.mul_0_r, Nat.add_0_r in Href.
      apply Href. lia. }
    rewrite (try_block_refused w (UFile o r b p) out tr _ _ eq_refl H0).
    replace (rc <? mr) with true by (symmetry; apply Nat.ltb_lt; lia).
    unfold random_uniform_1_2, sleep.
    set (get := EvGet (contents_url o r b p) accept_raw).
    set (u := uniform w (length (tr ++ [get]))).
    set (tr3 := ((tr ++ [get]) ++ [EvUniform u])
                  ++ [EvSleep (wait_time rc u)]).
    assert (L3 : length tr3 = length tr + 3).
    { unfold tr3. rewrite !length_app. simpl. lia. }
    destruct (IH (rc + 1) tr3) as (Hb & Hr & Hw & us & Hl & Hs).
    + lia.
    + intros i Hi. rewrite L3.
      replace (length tr + 3 + 3 * i) with (length tr + 3 * S i) by lia.
      apply Href. lia.
    + rewrite L3.
      replace (length tr + 3 + 3 * k) with (length tr + 3 * S k) by lia.
      exact Hget.
    + exact H200.
    + intros j Hj. rewrite L3.
      replace (length tr + 3 + 3 * k + j)
        with (length tr + 3 * S k + j) by lia.
      apply Hfs. exact Hj.
    + split; [exact Hb|]. split; [|split].
      * rewrite Hr. unfold tr3, get. rewrite !requests_app. simpl.
        rewrite !app_nil_r, <- app_assoc. reflexivity.
      * rewrite Hw. unfold tr3, get. rewrite !writes_app. simpl.
        rewrite !app_nil_r. reflexivity.
      * exists (u :: us). split; [simpl; lia|].
        rewrite Hs. unfold tr3, get. rewrite !sleeps_app. simpl.
        rewrite !app_nil_r, <- app_assoc. simpl.
        replace (rc + 1) with (S rc) by lia. reflexivity.
Qed.

Lemma fetch_recovers_after_refusals_witness :
  refused (http_get world_flaky 0
                    (contents_url (lit "acme") (lit "repo") (lit "main")
                                  (lit "cmd/tool.py")) accept_raw) /\
  snd (download_github_file world_flaky info_file (lit "out/tool.py") 0 3 [])
  = true /\
  writes (fst (download_github_file world_flaky info_file
                                    (lit "out/tool.py") 0 3 []))
  = [(lit "out/tool.py", lit "data")].
Proof.
  split; [exact I|].
  destruct (fetch_recovers_after_refusals
              world_flaky (lit "acme") (lit "repo") (lit "main")
              (lit "cmd/tool.py") (lit "out/tool.py") 3
              (resp 200 (lit "data") None) 1 0 [])
    as (Hb & _ & Hw & _).
  - lia.
  - intros i Hi. assert (i = 0) by lia. subst i. exact I.
  - reflexivity.
  - reflexivity.
  - intros j Hj. reflexivity.
  - split; [exact Hb|exact Hw].
Defined.

Lemma try_block_never_ok w ui p tr :
  never_ok w -> snd (try_block w ui p tr) <> Ok true.
Proof.
  intros Hw.
  destruct ui; unfold try_block, branches, bind, requests_get, ret, raise;
    try (simpl; discriminate);
    match goal with
    | |- context [http_get w ?t ?u ?a] =>
        destruct (http_get w t u a) as [|r] eqn:E; [simpl; discriminate|];
        apply Hw in E; apply Z.eqb_neq in E; rewrite E;
        destruct (status_code r =? 429)%Z; simpl; discriminate
    end.
Qed.

(** X7: the fetcher never reports success unless a request was answered
    with status 200: when no answer has that status, every fetch returns
    false, for every reference and retry budget. *)
Theorem fetch_needs_status_200 w ui p mr :
  never_ok w ->
  forall rc tr, snd (download_github_file w ui p rc mr tr) = false.
Proof.
  intros Hw rc. remember (mr - rc) as n eqn:En.
  revert rc En. induction n as [|n IH]; intros rc En tr;
    rewrite download_github_file_eq;
    pose proof (try_block_never_ok w ui p tr Hw) as Hn;
    destruct (try_block w ui p tr) as [tr1 [[|]|]]; simpl in Hn;
      try reflexivity; try congruence;
      (destruct (rc <? mr) eqn:L; [|reflexivity]);
      apply Nat.ltb_lt in L.
  - lia.
  - unfold random_uniform_1_2. apply IH. lia.
Qed.

Lemma fetch_needs_status_200_witness :
  never_ok (world_status 404) /\
  snd (download_github_file (world_status 404) info_dir (lit "out/docs")
                            0 3 []) = false.
Proof.
  assert (H : never_ok (world_status 404)).
  { intros t url accept r E. inversion E. simpl. discriminate. }
  split; [exact H|].
  exact (fetch_needs_status_200 (world_status 404) info_dir
                                (lit "out/docs") 3 H 0 []).
Defined.

(** One item of a listing, when nothing raises: a file item costs one
    request, another item none. *)
Lemma download_item_run w out it tr :
  never_raises w ->
  exists tr',
    download_item w out (Some it) tr = (tr', Ok tt) /\
    requests tr'
    = requests tr ++ (if is_file_item it
                      then [(item_download_url it, accept_raw)] else []) /\
    sleeps tr' = sleeps tr.
Proof.
  intros [Hnet Hfs]. unfold download_item, is_file_item.
  destruct (str_eqb (item_type it) (lit "file")).
  - unfold bind, requests_get.
    destruct (http_get w (length tr) (item_download_url it) accept_raw)
      as [|r] eqn:E; [exfalso; apply (Hnet _ _ _ E)|].
    destruct (status_code r =? 200)%Z.
    + unfold open_, write, fs_call.
      do 2 (rewrite ?Hfs; cbn beta iota zeta).
      eexists. split; [reflexivity|].
      rewrite !requests_app, !sleeps_app. simpl.
      rewrite !app_nil_r. auto.
    + eexists. split; [reflexivity|].
      rewrite !requests_app, !sleeps_app. simpl.
      rewrite !app_nil_r. auto.
  - exists tr. split; [reflexivity|]. rewrite app_nil_r. auto.
Qed.

Lemma for_each_items_run w out :
  never_raises w ->
  forall items tr,
  exists tr',
    for_each (map Some items) (download_item w out) tr = (tr', Ok tt) /\
    requests tr'
    = requests tr ++ map (fun it => (item_download_url it, accept_raw))
                         (filter is_file_item items) /\
    sleeps tr' = sleeps tr.
Proof.
  intros Hw. induction items as [|it items IH]; intros tr.
  - exists tr. split; [reflexivity|]. simpl. rewrite app_nil_r. auto.
  - cbn [map for_each]. unfold bind at 1.
    destruct (download_item_run w out it tr Hw) as (tr1 & E1 & R1 & S1).
    rewrite E1.
    destruct (IH tr1) as (tr2 & E2 & R2 & S2).
    exists tr2. split; [exact E2|]. split; [|congruence].
    rewrite R2, R1. cbn [filter].
    destruct (is_file_item it); simpl; rewrite <- app_assoc; reflexivity.
Qed.

Lemma try_block_dir_ok w o r b p out tr rsp items :
  never_raises w ->
  http_get w (length tr) (contents_url o r b p) accept_json = Resp rsp ->
  status_code rsp = 200%Z ->
  json rsp = Some (Listing (map Some items)) ->
  exists tr',
    try_block w (UDir o r b p) out tr = (tr', Ok true) /\
    requests tr'
    = requests tr
      ++ (contents_url o r b p, accept_json)
      :: map (fun it => (item_download_url it, accept_raw))
             (filter is_file_item items) /\
    sleeps tr' = sleeps tr.
Proof.
  intros Hw Hget H200 Hjson.
  destruct (for_each_items_run w out Hw items
              ((tr ++ [EvGet (contents_url o r b p) accept_json])
                 ++ [EvMakedirs out]))
    as (tr2 & E2 & R2 & S2).
  exists tr2. split.
  - unfold try_block, branches, bind, requests_get, makedirs, fs_call.
    rewrite Hget, H200. cbn [Z.eqb Pos.eqb].
    rewrite (proj2 Hw), Hjson, E2. reflexivity.
  - rewrite R2, S2, !requests_app, !sleeps_app. simpl.
    rewrite !app_nil_r, <- app_assoc. auto.
Qed.

(** X8: a fetch of a directory whose listing is answered with 200 succeeds
    without a retry when nothing raises, whatever the status of the
    downloads of its files: after the listing it sends one request per
    entry of type file, in order, to the download URL of the entry, and
    none for an entry of another type, so that sub-directories are not
    descended into and a refused file leaves the fetch a success. *)
Theorem fetch_directory_requests w o r b p out rc mr tr rsp items :
  never_raises w ->
  http_get w (length tr) (contents_url o r b p) accept_json = Resp rsp ->
  status_code rsp = 200%Z ->
  json rsp = Some (Listing (map Some items)) ->
  snd (download_github_file w (UDir o r b p) out rc mr tr) = true /\
  requests (fst (download_github_file w (UDir o r b p) out rc mr tr))
  = requests tr
    ++ (contents_url o r b p, accept_json)
    :: map (fun it => (item_download_url it, accept_raw))
           (filter is_file_item items) /\
  sleeps (fst (download_github_file w (UDir o r b p) out rc mr tr))
  = sleeps tr.
Proof.
  intros Hw Hget H200 Hjson. rewrite download_github_file_eq.
  destruct (try_block_dir_ok w o r b p out tr rsp items Hw Hget H200 Hjson)
    as (tr2 & E2 & R2 & S2).
  rewrite E2. simpl. auto.
Qed.

Lemma fetch_directory_requests_witness :
  never_raises world_listing /\
  snd (download_github_file world_listing info_dir (lit "out/docs") 0 3 [])
  = true /\
  requests (fst (download_github_file world_listing info_dir
                                      (lit "out/docs") 0 3 []))
  = [(lit "https://api.github.com/repos/acme/repo/contents/docs?ref=main",
      accept_json);
     (lit "https://raw.example/README.md", accept_raw)].
Proof.
  assert (H : never_raises world_listing).
  { split; [|reflexivity]. intros t url accept. simpl.
    destruct (t =? 0); discriminate. }
  split; [exact H|].
  destruct (fetch_directory_requests
              world_listing (lit "acme") (lit "repo") (lit "main")
              (lit "docs") (lit "out/docs") 0 3 [] _
              [item_readme; item_subdir] H eq_refl eq_refl eq_refl)
    as (Hb & Hr & _).
  split; [exact Hb|exact Hr].
Defined.

Lemma write_gist_files_run w out :
  (forall t, fs_raises w t = false) ->
  forall files tr,
    for_each (map (fun f => (fst f, Some (snd f))) files)
             (write_gist_file w out) tr
    = (tr ++ flat_map (fun f => [EvOpen (path_join out [fst f]);
                                 EvWrite (path_join out [fst f]) (snd f)])
                      files, Ok tt).
Proof.
  intros Hfs. induction files as [|f files IH]; intros tr.
  - simpl. rewrite app_nil_r. reflexivity.
  - cbn [map for_each flat_map]. unfold bind at 1.
    unfold write_gist_file at 1. cbn [fst snd].
    unfold bind, open_, write, fs_call.
    do 2 (rewrite ?Hfs; cbn beta iota zeta).
    rewrite IH. repeat rewrite <- app_assoc. reflexivity.
Qed.

(** X9: a fetch of a gist that is answered with 200 makes that one
    request, creates the output directory and writes every file of the gist
    under it with the content given inline, in the order of the answer; it
    returns true without a retry. *)
Theorem fetch_gist_writes_files w o g out rc mr tr rsp files :
  (forall t, fs_raises w t = false) ->
  http_get w (length tr) (gists_api_url g) accept_json = Resp rsp ->
  status_code rsp = 200%Z ->
  json rsp = Some (GistData (map (fun f => (fst f, Some (snd f))) files)) ->
  download_github_file w (UGist o g) out rc mr tr
  = (tr ++ [EvGet (gists_api_url g) accept_json; EvMakedirs out]
        ++ flat_map (fun f => [EvOpen (path_join out [fst f]);
                               EvWrite (path_join out [fst f]) (snd f)])
                    files,
     true).
Proof.
  intros Hfs Hget H200 Hjson. rewrite download_github_file_eq.
  unfold try_block, branches, bind, requests_get, makedirs, fs_call.
  rewrite Hget, H200. cbn [Z.eqb Pos.eqb].
  rewrite Hjson, Hfs, (write_gist_files_run w out Hfs).
  simpl. repeat rewrite <- app_assoc. reflexivity.
Qed.

Lemma fetch_gist_writes_files_witness :
  (forall t, fs_raises world_gist t = false) /\
  writes (fst (download_github_file world_gist info_gist
                                    (lit "out/Snippet-gist") 0 3 []))
  = [(lit "out/Snippet-gist/a.py", lit "print(1)");
     (lit "out/Snippet-gist/b.md", lit "notes")].
Proof.
  assert (H : forall t, fs_raises world_gist t = false) by reflexivity.
  split; [exact H|].
  exact (f_equal (fun x => writes (fst x))
           (fetch_gist_writes_files
              world_gist (lit "acme") (lit "0123abcd")
              (lit "out/Snippet-gist") 0 3 [] _
              [(lit "a.py", lit "print(1)"); (lit "b.md", lit "notes")]
              H eq_refl eq_refl eq_refl)).
Defined.

(** *** Where a fetch writes *)

Lemma startswith_app a x : startswith (a ++ x) a = true.
Proof. unfold startswith. rewrite strip_prefix_refl. reflexivity. Qed.

Lemma startswith_refl a : startswith a a = true.
Proof. rewrite <- (app_nil_r a) at 1. apply startswith_app. Qed.

(** Joining a name that does not start with a slash stays below the
    directory. *)
Lemma join2_below a b :
  startswith b [slash] = false -> startswith (join2 a b) a = true.
Proof.
  intros H. unfold join2. rewrite H.
  destruct (rev a) as [|c r] eqn:E.
  - apply (f_equal (@rev ascii)) in E. rewrite rev_involutive in E.
    subst a. reflexivity.
  - destruct (Ascii.eqb c slash); apply startswith_app.
Qed.

Lemma emits_get_bind {B} w (P : event -> Prop) url accept
      (f : response -> M B) :
  P (EvGet url accept) ->
  (forall t r, http_get w t url accept = Resp r -> emits P (f r)) ->
  emits P (bind (requests_get w url accept) f).
Proof.
  intros HP Hf tr. unfold bind, requests_get.
  destruct (http_get w (length tr) url accept) as [|r] eqn:E.
  - exists [EvGet url accept]. simpl. auto.
  - destruct (Hf _ r E (tr ++ [EvGet url accept])) as [evs [E2 F2]].
    exists (EvGet url accept :: evs). rewrite E2, <- app_assoc.
    split; [reflexivity|]. constructor; assumption.
Qed.

Lemma emits_for_each_Forall {A} P (xs : list A) (body : A -> M unit) :
  Forall (fun x => emits P (body x)) xs -> emits P (for_each xs body).
Proof.
  induction 1 as [|x xs Hx _ IH]; simpl.
  - apply emits_ret.
  - apply emits_bind; auto.
Qed.

Lemma download_item_below w p it :
  match it with
  | Some it => startswith (item_name it) [slash] = false
  | None => True
  end ->
  emits (below p) (download_item w p it).
Proof.
  destruct it as [it|]; simpl; intros H; [|apply emits_raise].
  destruct (str_eqb _ _); [|apply emits_ret].
  assert (Hb : startswith (path_join p [item_name it]) p = true)
    by (apply join2_below; exact H).
  apply emits_bind; [apply emits_requests_get; exact I|].
  intros r. destruct (status_code r =? 200)%Z; [|apply emits_ret].
  apply emits_bind; intros; apply emits_fs_call; exact Hb.
Qed.

Lemma write_gist_file_below w p f :
  startswith (fst f) [slash] = false ->
  emits (below p) (write_gist_file w p f).
Proof.
  intros H. unfold write_gist_file.
  assert (Hb : startswith (path_join p [fst f]) p = true)
    by (apply join2_below; exact H).
  apply emits_bind; [apply emits_fs_call; exact Hb|].
  intros _. destruct (snd f); [apply emits_fs_call; exact Hb|].
  apply emits_raise.
Qed.

Lemma branches_below w ui p :
  (forall t url accept r,
      http_get w t url accept = Resp r -> relative_names r) ->
  emits (below p) (branches w ui p).
Proof.
  intros Hw. pose proof (startswith_refl p) as Hp.
  destruct ui; simpl.
  - apply emits_get_bind; [exact I|]. intros t r _.
    destruct (status_code r =? 200)%Z; [|apply emits_ret].
    apply emits_bind; [apply emits_fs_call; exact I|intros _].
    apply emits_bind; [apply emits_fs_call; exact Hp|intros _].
    apply emits_bind; [apply emits_fs_call; exact Hp|intros _].
    apply emits_ret.
  - apply emits_get_bind; [exact I|]. intros t r Hr.
    apply Hw in Hr. unfold relative_names in Hr.
    destruct (status_code r =? 200)%Z; [|apply emits_ret].
    apply emits_bind; [apply emits_fs_call; exact I|intros _].
    destruct (json r) as [[items|files|[|]]|];
      try apply emits_raise; try apply emits_ret.
    apply emits_bind; [|intros; apply emits_ret].
    apply emits_for_each_Forall.
    eapply Forall_impl; [|exact Hr].
    intros it Hit. apply download_item_below. exact Hit.
  - apply emits_ret.
  - apply emits_get_bind; [exact I|]. intros t r Hr.
    apply Hw in Hr. unfold relative_names in Hr.
    destruct (status_code r =? 200)%Z; [|apply emits_ret].
    destruct (json r) as [pl|]; [|apply emits_raise].
    apply emits_bind; [apply emits_fs_call; exact I|intros _].
    destruct pl as [items|files|e]; try apply emits_raise.
    apply emits_bind; [|intros; apply emits_ret].
    apply emits_for_each_Forall.
    eapply Forall_impl; [|exact Hr].
    intros f Hf. apply write_gist_file_below. exact Hf.
Qed.

Lemma try_block_below w ui p :
  (forall t url accept r,
      http_get w t url accept = Resp r -> relative_names r) ->
  emits (below p) (try_block w ui p).
Proof.
  intros Hw. unfold try_block.
  apply emits_bind; [apply branches_below; exact Hw|].
  intros [b|[r|]]; try apply emits_ret; try apply emits_raise.
  destruct (status_code r =? 429)%Z; [apply emits_raise|apply emits_ret].
Qed.

(** X10: when no name the server sends starts with a slash, every file a
    fetch opens or writes has a path that starts with the output path: the
    output path itself for a file, the output path joined with the name of
    the entry for a directory or a gist.  This holds over all attempts of
    the fetch, for every reference. *)
Theorem fetch_writes_below_output_path w ui p mr :
  (forall t url accept r,
      http_get w t url accept = Resp r -> relative_names r) ->
  forall rc tr,
  exists evs,
    fst (download_github_file w ui p rc mr tr) = tr ++ evs /\
    Forall (below p) evs.
Proof.
  intros Hw rc. remember (mr - rc) as n eqn:En. revert rc En.
  induction n as [|n IH]; intros rc En tr;
    rewrite download_github_file_eq;
    destruct (try_block_below w ui p Hw tr) as [evs [E F]];
    destruct (try_block w ui p tr) as [tr1 [b|]]; simpl in E; subst tr1;
      try (exists evs; auto; fail);
      (destruct (rc <? mr) eqn:L; [|exists evs; auto]);
      apply Nat.ltb_lt in L.
  - lia.
  - unfold random_uniform_1_2, sleep.
    set (u := uniform w (length (tr ++ evs))).
    destruct (IH (rc + 1) ltac:(lia)
                 (((tr ++ evs) ++ [EvUniform u])
                    ++ [EvSleep (wait_time rc u)]))
      as [evs' [E' F']].
    exists (evs ++ [EvUniform u] ++ [EvSleep (wait_time rc u)] ++ evs').
    split; [rewrite E'; repeat rewrite <- app_assoc; reflexivity|].
    forall_events; auto.
Qed.

Lemma fetch_writes_below_output_path_witness :
  (forall t url accept r,
      http_get world_gist t url accept = Resp r -> relative_names r) /\
  exists evs,
    fst (download_github_file world_gist info_gist
                              (lit "out/Snippet-gist") 0 3 [])
    = [] ++ evs /\
    Forall (below (lit "out/Snippet-gist")) evs.
Proof.
  assert (H : forall t url accept r,
             http_get world_gist t url accept = Resp r -> relative_names r).
  { intros t url accept r E. inversion E. unfold relative_names. simpl.
    repeat constructor. }
  split; [exact H|].
  exact (fetch_writes_below_output_path
           world_gist info_gist (lit "out/Snippet-gist") 3 H 0 []).
Defined.

(** Answers of an unexpected shape.  An empty object lists nothing, so the
    fetch of a directory succeeds with an empty directory; as a gist it has
    no files, which shows only after the directory is made; a body that is
    not JSON stops the fetch of a gist before that. *)
Example answers_of_another_shape :
  download_github_file (world_json (Some (Other true))) info_dir
                       (lit "out/docs") 0 0 []
  = ([EvGet (lit "https://api.github.com/repos/acme/repo/contents/docs?ref=main")
            accept_json;
      EvMakedirs (lit "out/docs")], true) /\
  download_github_file (world_json (Some (Other true))) info_gist
                       (lit "out/gist") 0 0 []
  = ([EvGet (lit "https://api.github.com/gists/0123abcd") accept_json;
      EvMakedirs (lit "out/gist")], false) /\
  download_github_file (world_json (Some (Listing []))) info_gist
                       (lit "out/gist") 0 0 []
  = ([EvGet (lit "https://api.github.com/gists/0123abcd") accept_json;
      EvMakedirs (lit "out/gist")], false) /\
  download_github_file (world_json None) info_gist (lit "out/gist") 0 0 []
  = ([EvGet (lit "https://api.github.com/gists/0123abcd") accept_json],
     false).
Proof. repeat split. Qed.

(** The hypothesis on the names is needed: a gist file with an absolute
    name is written at that name, outside the output path. *)
Example absolute_name_escapes :
  writes (fst (download_github_file world_absolute_name info_gist
                                    (lit "out/Snippet-gist") 0 3 []))
  = [(lit "/tmp/x", lit "data")].
Proof. vm_compute. reflexivity. Qed.

(** ** process_resources, continued *)

Lemma process_row_consistent w cfg row st tr :
  consistent st ->
  consistent (snd (process_row w cfg row st tr)) /\
  (total_resources (snd (process_row w cfg row st tr))
   <= total_resources st + 1)%Z.
Proof.
  unfold consistent. intros H.
  destruct (process_row_cases w cfg row st tr)
    as [E|[E|[E|[ui [rp [hp [_ [_ E]]]]]]]]; rewrite E; simpl; try lia.
  rewrite fetch_row_stats.
  destruct (snd (download_github_file w ui rp 0 3 tr)); simpl; lia.
Qed.

Lemma process_rows_consistent w cfg rows : forall st tr,
  consistent st ->
  consistent (snd (process_rows w cfg rows st tr)) /\
  (total_resources (snd (process_rows w cfg rows st tr))
   <= total_resources st + Z.of_nat (length rows))%Z.
Proof.
  induction rows as [|row rows IH]; intros st tr H; simpl.
  - split; [exact H|lia].
  - destruct (limit_reached cfg st); [simpl; split; [exact H|lia]|].
    destruct (process_row_consistent w cfg row st tr H) as [Hc Ht].
    destruct (process_row w cfg row st tr) as [tr' st']. simpl in *.
    destruct (IH st' tr' Hc) as [Hc' Ht']. split; [exact Hc'|lia].
Qed.

(** X11: the counters of a run are consistent, whatever the manifest, the
    options and the environment: none is negative, the downloaded, skipped
    and failed rows together are no more than the total, and the total is
    no more than the number of rows. *)
Theorem counters_consistent w cfg rows :
  consistent (snd (process_resources w cfg rows)) /\
  (total_resources (snd (process_resources w cfg rows))
   <= Z.of_nat (length rows))%Z.
Proof.
  unfold process_resources.
  destruct (process_rows_consistent w cfg rows zero_stats [])
    as [Hc Ht]; [unfold consistent; simpl; lia|].
  split; [exact Hc|exact Ht].
Qed.

Lemma process_row_total w cfg row st tr :
  total_resources (snd (process_row w cfg row st tr))
  = (total_resources st + if is_active row then 1 else 0)%Z.
Proof.
  unfold process_row, is_active.
  destruct (str_eqb (upper (Active row)) (lit "TRUE")); cbn [negb];
    [|simpl; lia].
  destruct (filtered_out (category_filter cfg) _); [reflexivity|].
  destruct (filtered_out (license_filter cfg) _); [reflexivity|].
  destruct (row_url row) as [|a url]; [reflexivity|].
  destruct (parse_github_url (a :: url)) as [ui|]; [|reflexivity].
  destruct (output_paths cfg row ui) as [[rp hp]|]; [|reflexivity].
  pose proof (fetch_row_stats w row ui rp hp (add_total st) tr) as Hs.
  unfold fetch_row in Hs. rewrite Hs.
  destruct (snd (download_github_file w ui rp 0 3 tr)); reflexivity.
Qed.

Lemma process_rows_total w cfg rows : forall st tr,
  (total_resources (snd (process_rows w cfg rows st tr))
   <= total_resources st + Z.of_nat (length (filter is_active rows)))%Z /\
  (truthy_int (max_downloads cfg) = false ->
   total_resources (snd (process_rows w cfg rows st tr))
   = (total_resources st + Z.of_nat (length (filter is_active rows)))%Z).
Proof.
  induction rows as [|row rows IH]; intros st tr.
  - simpl. split; intros; lia.
  - cbn [process_rows filter].
    pose proof (process_row_total w cfg row st tr) as Ht.
    assert (Hlen : (Z.of_nat (length (if is_active row
                                      then row :: filter is_active rows
                                      else filter is_active rows))
                    = (if is_active row then 1 else 0)
                      + Z.of_nat (length (filter is_active rows)))%Z).
    { destruct (is_active row); simpl length; lia. }
    rewrite Hlen. split.
    + destruct (limit_reached cfg st).
      * simpl. destruct (is_active row); lia.
      * destruct (process_row w cfg row st tr) as [tr' st']. simpl in Ht.
        destruct (IH st' tr') as [IH1 _]. lia.
    + intros Hn.
      assert (Hl : limit_reached cfg st = false).
      { unfold limit_reached. destruct (max_downloads cfg); [|reflexivity].
        rewrite Hn. reflexivity. }
      rewrite Hl.
      destruct (process_row w cfg row st tr) as [tr' st']. simpl in Ht.
      destruct (IH st' tr') as [_ IH2]. rewrite (IH2 Hn). lia.
Qed.

(** X12: the total of a run counts the active rows whether or not they
    pass the category and license filters: it is never more than the number
    of rows whose Active field reads TRUE in upper case, and without a
    download limit ([None] or zero) it is exactly that number. *)
Theorem total_counts_active_rows w cfg rows :
  (total_resources (snd (process_resources w cfg rows))
   <= Z.of_nat (length (filter is_active rows)))%Z /\
  (truthy_int (max_downloads cfg) = false ->
   total_resources (snd (process_resources w cfg rows))
   = Z.of_nat (length (filter is_active rows))).
Proof.
  unfold process_resources.
  destruct (process_rows_total w cfg rows zero_stats []) as [H1 H2].
  simpl in H1, H2. split; [exact H1|exact H2].
Qed.

Lemma total_counts_active_rows_witness :
  truthy_int (max_downloads (config_category "Other")) = false /\
  process_resources (world_status 200) (config_category "Other")
                    [row_file; row_inactive; row_gist]
  = ([], {| total_resources := 2; downloaded := 0;
            skipped := 0; failed := 0 |}) /\
  total_resources
    (snd (process_resources (world_status 200) (config_category "Other")
                            [row_file; row_inactive; row_gist]))
  = Z.of_nat (length (filter is_active [row_file; row_inactive; row_gist])).
Proof.
  split; [reflexivity|]. split; [reflexivity|].
  apply (proj2 (total_counts_active_rows
                  (world_status 200) (config_category "Other")
                  [row_file; row_inactive; row_gist])).
  reflexivity.
Defined.

(** X13: in a manifest without License column a license filter rejects
    every row, also the filter NOT_FOUND that names the default of the
    missing license: the row causes no effect and is neither downloaded nor
    skipped nor failed. *)
Theorem license_filter_rejects_missing_license w cfg row st tr :
  License row = None ->
  truthy_str (license_filter cfg) = true ->
  fst (process_row w cfg row st tr) = tr /\
  downloaded (snd (process_row w cfg row st tr)) = downloaded st /\
  skipped (snd (process_row w cfg row st tr)) = skipped st /\
  failed (snd (process_row w cfg row st tr)) = failed st.
Proof.
  intros Hl Hf.
  assert (Ho : filtered_out (license_filter cfg) (get_license row [])
               = true).
  { unfold get_license. rewrite Hl.
    destruct (license_filter cfg) as [[|a f]|]; try discriminate Hf.
    assert (E : str_eqb [] (a :: f) = false)
      by (apply str_eqb_neq; discriminate).
    unfold filtered_out. rewrite E. reflexivity. }
  unfold process_row.
  destruct (negb _); [auto|].
  destruct (filtered_out (category_filter cfg) _); [auto|].
  rewrite Ho. auto.
Qed.

Lemma license_filter_rejects_missing_license_witness :
  License row_unlicensed = None /\
  row_license row_unlicensed = lit "NOT_FOUND" /\
  fst (process_row (world_status 200) (config_license "NOT_FOUND")
                   row_unlicensed zero_stats []) = [].
Proof.
  split; [reflexivity|]. split; [reflexivity|].
  apply (license_filter_rejects_missing_license
           (world_status 200) (config_license "NOT_FOUND") row_unlicensed);
    reflexivity.
Defined.

(** X14: the outcome of a row that is fetched follows the fetch alone: when
    the fetch returns true the row adds one to [downloaded] and none to
    [failed], when it returns false one to [failed] and none to
    [downloaded]; either way it adds one to [total_resources] and none to
    [skipped], and nothing that happens in the copy into the hosted tree,
    which may raise, changes a counter. *)
Theorem row_outcome_follows_fetch w cfg row st tr ui rp hp :
  upper (Active row) = lit "TRUE" ->
  filtered_out (category_filter cfg) (Category row) = false ->
  filtered_out (license_filter cfg) (get_license row []) = false ->
  parse_github_url (row_url row) = Some ui ->
  output_paths cfg row ui = Some (rp, hp) ->
  snd (process_row w cfg row st tr)
  = if snd (download_github_file w ui rp 0 3 tr)
    then {| total_resources := total_resources st + 1;
            downloaded := downloaded st + 1;
            skipped := skipped st;
            failed := failed st |}
    else {| total_resources := total_resources st + 1;
            downloaded := downloaded st;
            skipped := skipped st;
            failed := failed st + 1 |}.
Proof.
  intros Ha Hc Hl Hp Ho. rewrite process_row_selected by assumption.
  destruct (row_url row) as [|a url].
  - rewrite parse_github_url_nil in Hp. discriminate.
  - rewrite Hp, Ho.
    apply (fetch_row_stats w row ui rp hp (add_total st) tr).
Qed.

Lemma row_outcome_follows_fetch_witness :
  snd (download_github_file world_copy_fails info_file
         (lit ".myob/downloads/tooling/My-Tool/tool.py") 0 3 []) = true /\
  ~ In (EvCopy2 (lit ".myob/downloads/tooling/My-Tool/tool.py")
                (lit "resources/tooling/My-Tool/tool.py"))
       (fst (process_row world_copy_fails config_default row_file
                         zero_stats [])) /\
  snd (process_row world_copy_fails config_default row_file zero_stats [])
  = {| total_resources := 1; downloaded := 1; skipped := 0; failed := 0 |} /\
  snd (download_github_file world_offline info_file
         (lit ".myob/downloads/tooling/My-Tool/tool.py") 0 3 []) = false /\
  snd (process_row world_offline config_default row_file zero_stats [])
  = {| total_resources := 1; downloaded := 0; skipped := 0; failed := 1 |}.
Proof.
  split; [reflexivity|]. split; [vm_compute; intuition discriminate|].
  split; [|split; [reflexivity|]].
  - exact (row_outcome_follows_fetch
             world_copy_fails config_default row_file zero_stats []
             info_file (lit ".myob/downloads/tooling/My-Tool/tool.py")
             (Some (lit "resources/tooling/My-Tool/tool.py"))
             eq_refl eq_refl eq_refl eq_refl eq_refl).
  - exact (row_outcome_follows_fetch
             world_offline config_default row_file zero_stats []
             info_file (lit ".myob/downloads/tooling/My-Tool/tool.py")
             (Some (lit "resources/tooling/My-Tool/tool.py"))
             eq_refl eq_refl eq_refl eq_refl eq_refl).
Defined.

(** ** Paths, continued *)

Lemma forallb_rev (p : ascii -> bool) s :
  forallb p s = true -> forallb p (rev s) = true.
Proof.
  rewrite !forallb_forall. intros H a Ha. apply H, in_rev, Ha.
Qed.

Lemma rev_join a f : rev (a ++ [slash] ++ f) = rev f ++ slash :: rev a.
Proof.
  rewrite !rev_app_distr. simpl. rewrite <- app_assoc. reflexivity.
Qed.

Lemma basename_join a f :
  forallb not_slash f = true -> basename (a ++ [slash] ++ f) = f.
Proof.
  intros Hf. unfold basename. rewrite rev_join.
  destruct (takewhile_app_stop not_slash (rev f) (slash :: rev a)
                               (forallb_rev _ _ Hf) eq_refl) as [E _].
  rewrite E. apply rev_involutive.
Qed.

Lemma dirname_join a f :
  plain_dir a = true -> forallb not_slash f = true ->
  dirname (a ++ [slash] ++ f) = a.
Proof.
  intros Ha Hf. unfold dirname. rewrite rev_join.
  destruct (takewhile_app_stop not_slash (rev f) (slash :: rev a)
                               (forallb_rev _ _ Hf) eq_refl) as [_ E].
  rewrite E. cbv zeta. unfold plain_dir in Ha.
  destruct (rev a) as [|c r] eqn:Er; [discriminate|].
  assert (Ea : a = rev r ++ [c]).
  { rewrite <- (rev_involutive a), Er. reflexivity. }
  assert (Hc : Ascii.eqb slash c = false).
  { unfold not_slash in Ha. rewrite Ascii.eqb_sym.
    destruct (Ascii.eqb c slash); [discriminate|reflexivity]. }
  assert (Hh : rev (slash :: c :: r) = a ++ [slash]).
  { simpl. rewrite Ea. reflexivity. }
  rewrite Hh.
  assert (Hn : forallb (Ascii.eqb slash) (a ++ [slash]) = false).
  { rewrite Ea, !forallb_app. cbn [forallb]. rewrite Hc.
    destruct (forallb (Ascii.eqb slash) (rev r)); reflexivity. }
  rewrite Hn. rewrite <- Hh, rev_involutive.
  cbn [dropwhile]. rewrite Ascii.eqb_refl.
  cbn [dropwhile]. rewrite Hc.
  simpl. symmetry. exact Ea.
Qed.

(** X15: joining and splitting paths round-trip: for a directory that is
    not empty and ends in no slash and a name without slash,
    [os.path.dirname] and [os.path.basename] of the joined path give back
    the directory and the name.  So the directory the fetcher creates
    before it writes the file of a row is archiveDir/category/safeName, and
    the file name is the last component of the path in the URL. *)
Theorem dirname_basename_of_join :
  (forall a f,
      plain_dir a = true -> forallb not_slash f = true ->
      dirname (join2 a f) = a /\ basename (join2 a f) = f) /\
  (forall cfg row o r b path rp hp,
      plain_dir (output_dir cfg) = true ->
      row_category row <> [] ->
      sanitize_filename (Display_Name row) <> [] ->
      output_paths cfg row (UFile o r b path) = Some (rp, hp) ->
      dirname rp
      = slashed [output_dir cfg; row_category row;
                 sanitize_filename (Display_Name row)] /\
      basename rp = basename path).
Proof.
  assert (J : forall a f,
             plain_dir a = true -> forallb not_slash f = true ->
             dirname (join2 a f) = a /\ basename (join2 a f) = f).
  { intros a f Ha Hf. rewrite join2_plain by assumption.
    split; [apply dirname_join; assumption|apply basename_join; exact Hf]. }
  split; [exact J|].
  intros cfg row o r b path rp hp Ho Hc Hs E.
  unfold output_paths in E. inversion E; subst rp. clear E.
  pose proof (sanitize_filename_no_slash (Display_Name row)) as Hn.
  assert (Hcat : forallb not_slash (row_category row) = true)
    by apply sanitize_filename_no_slash.
  destruct (J (join2 (join2 (output_dir cfg) (row_category row))
                     (sanitize_filename (Display_Name row)))
              (basename path))
    as [Jd Jb]; [auto using join2_plain_dir|apply basename_no_slash|].
  split; [|exact Jb].
  etransitivity; [exact Jd|].
  exact (path_join_2 (output_dir cfg) (row_category row)
                     (sanitize_filename (Display_Name row)) Ho Hc Hcat Hn).
Qed.

Lemma dirname_basename_of_join_witness :
  plain_dir (lit "out/tooling") = true /\
  dirname (join2 (lit "out/tooling") (lit "tool.py")) = lit "out/tooling" /\
  basename (join2 (lit "out/tooling") (lit "tool.py")) = lit "tool.py".
Proof.
  split; [reflexivity|].
  apply (proj1 dirname_basename_of_join); reflexivity.
Defined.

Lemma lower_char_not_upper a : is_ascii_upper (lower_char a) = false.
Proof. destruct a as [[] [] [] [] [] [] [] []]; reflexivity. Qed.

Lemma replace_from_Forall (P : ascii -> Prop) old new :
  Forall P new ->
  forall s skip, Forall P s -> Forall P (replace_from skip old new s).
Proof.
  intros Hn. induction s as [|a s IH]; intros skip Hs; simpl; auto.
  inversion Hs; subst. destruct skip as [|k]; auto.
  destruct (startswith (a :: s) old); [apply Forall_app_intro|]; auto.
Qed.

(** X16: the category directory of the archive path holds no upper-case
    ASCII letter, no white space and none of the characters the first
    substitution removes, and has at most 255 characters, whatever the
    Category field of the row. *)
Theorem row_category_is_plain row :
  length (row_category row) <= 255 /\
  Forall (fun a => is_ascii_upper a = false /\ is_space a = false /\
                   mem a forbidden = false)
         (row_category row).
Proof.
  unfold row_category.
  destruct (sanitize_filename_safe
              (replace (lit " & ") (lit "-") (lower (Category row))))
    as (L & F & S & _).
  split; [exact L|].
  assert (U : Forall (fun a => is_ascii_upper a = false)
                (sanitize_filename
                   (replace (lit " & ") (lit "-") (lower (Category row))))).
  { unfold sanitize_filename, re_sub.
    apply Forall_firstn_str, strip_chars_Forall, re_sub_plus_Forall;
      [repeat constructor|].
    apply re_sub_cls_Forall; [constructor|].
    apply replace_from_Forall; [repeat constructor|].
    unfold lower. apply Forall_forall. intros a Ha.
    apply in_map_iff in Ha. destruct Ha as [b [E _]]. subst a.
    apply lower_char_not_upper. }
  rewrite Forall_forall in *. intros a Ha. auto.
Qed.

(** ** The request budget *)

Lemma requests_no_get evs : Forall no_get evs -> requests evs = [].
Proof.
  induction 1 as [|e evs He _ IH]; simpl; auto.
  destruct e; simpl in *; auto; contradiction.
Qed.

Lemma bind_assoc {A B C} (c : M A) (f : A -> M B) (g : B -> M C) tr :
  bind (bind c f) g tr = bind c (fun a => bind (f a) g) tr.
Proof. unfold bind. destruct (c tr) as [tr' [a|]]; reflexivity. Qed.

(** A computation that starts with a request and sends no other. *)
Lemma one_request {B} w url accept (h : response -> M B) tr :
  (forall r, emits no_get (h r)) ->
  requests (fst (bind (requests_get w url accept) h tr))
  = requests tr ++ [(url, accept)].
Proof.
  intros Hh. unfold bind, requests_get.
  destruct (http_get w (length tr) url accept) as [|r].
  - simpl. rewrite requests_app. reflexivity.
  - destruct (Hh r (tr ++ [EvGet url accept])) as [evs [E F]].
    rewrite E, !requests_app, (requests_no_get evs F). simpl.
    rewrite app_nil_r. reflexivity.
Qed.

Lemma write_gist_file_no_get w p f : emits no_get (write_gist_file w p f).
Proof.
  unfold write_gist_file.
  apply emits_bind; [apply emits_fs_call; exact I|].
  intros _. destruct (snd f); [apply emits_fs_call; exact I|].
  apply emits_raise.
Qed.

Lemma fall_through_no_get e :
  emits no_get
        match e with
        | Return b => ret b
        | Fall None => raise
        | Fall (Some response) =>
            if (status_code response =? 429)%Z then raise else ret false
        end.
Proof.
  destruct e as [b|[r|]]; try apply emits_ret; try apply emits_raise.
  destruct (status_code r =? 429)%Z; [apply emits_raise|apply emits_ret].
Qed.

(** An attempt on a file or a gist sends exactly its first request. *)
Lemma try_block_one_request w ui p tr req :
  top_request ui = Some req ->
  (forall o r b q, ui <> UDir o r b q) ->
  requests (fst (try_block w ui p tr)) = requests tr ++ [req].
Proof.
  intros Ht Hd. unfold try_block.
  destruct ui as [o r b q|o r b q|o r|o g]; simpl in Ht;
    try discriminate; [| exfalso; apply (Hd o r b q); reflexivity |];
    inversion Ht; subst req; clear Ht;
    cbn [branches]; rewrite bind_assoc; apply one_request; intros rsp;
    (apply emits_bind; [|apply fall_through_no_get]);
    (destruct (status_code rsp =? 200)%Z; [|apply emits_ret]).
  - repeat (apply emits_bind; [apply emits_fs_call; exact I|intros _]).
    apply emits_ret.
  - destruct (json rsp) as [pl|]; [|apply emits_raise].
    apply emits_bind; [apply emits_fs_call; exact I|intros _].
    destruct pl as [items|files|e]; try apply emits_raise.
    apply emits_bind; [|intros; apply emits_ret].
    apply emits_for_each. intros. apply write_gist_file_no_get.
Qed.

(** X17: a fetch of a file or of a gist sends the same request at least
    once and at most once more than the retries it has left, and no other
    request, in every environment: with the default of three retries a row
    costs at most four requests. *)
Theorem fetch_request_budget w ui p mr req :
  top_request ui = Some req ->
  (forall o r b q, ui <> UDir o r b q) ->
  forall rc tr,
  exists k,
    1 <= k <= mr - rc + 1 /\
    requests (fst (download_github_file w ui p rc mr tr))
    = requests tr ++ repeat req k.
Proof.
  intros Ht Hd rc. remember (mr - rc) as n eqn:En. revert rc En.
  induction n as [|n IH]; intros rc En tr;
    rewrite download_github_file_eq;
    pose proof (try_block_one_request w ui p tr req Ht Hd) as Hr;
    destruct (try_block w ui p tr) as [tr1 [b|]]; simpl in Hr;
      try (exists 1; split; [lia|exact Hr]);
      (destruct (rc <? mr) eqn:L; [|exists 1; split; [lia|exact Hr]]);
      apply Nat.ltb_lt in L.
  - lia.
  - unfold random_uniform_1_2, sleep.
    match goal with
    | |- context [download_github_file _ _ _ _ _ ?t] =>
        destruct (IH (rc + 1) ltac:(lia) t) as [k [Hk Hq]]
    end.
    exists (S k). split; [lia|].
    rewrite Hq, !requests_app, Hr. simpl.
    rewrite !app_nil_r, <- app_assoc. reflexivity.
Qed.

Lemma fetch_request_budget_witness :
  top_request info_gist
  = Some (lit "https://api.github.com/gists/0123abcd", accept_json) /\
  exists k,
    1 <= k <= 3 - 0 + 1 /\
    requests (fst (download_github_file world_offline info_gist
                                        (lit "out/Snippet-gist") 0 3 []))
    = requests [] ++ repeat (lit "https://api.github.com/gists/0123abcd",
                             accept_json) k.
Proof.
  split; [reflexivity|].
  apply (fetch_request_budget world_offline info_gist
                              (lit "out/Snippet-gist") 3 _ eq_refl).
  intros o r b q. discriminate.
Defined.

(** ** The hosted copy *)

(** X18: a row whose fetch returns false is never copied into the hosted
    tree, whatever its license: none of the effects of the row is a copy. *)
Theorem failed_fetch_is_not_copied w cfg row st tr ui rp hp :
  parse_github_url (row_url row) = Some ui ->
  output_paths cfg row ui = Some (rp, hp) ->
  snd (download_github_file w ui rp 0 3 tr) = false ->
  exists evs,
    fst (process_row w cfg row st tr) = tr ++ evs /\
    Forall (fun e => ~ copy_event e) evs.
Proof.
  intros Hp Ho Hf.
  destruct (process_row_cases w cfg row st tr)
    as [E|[E|[E|[ui' [rp' [hp' [Hp' [Ho' E]]]]]]]]; rewrite E;
    try solve [exists []; simpl; rewrite app_nil_r; auto].
  rewrite Hp in Hp'. inversion Hp'; subst ui'.
  rewrite Ho in Ho'. inversion Ho'; subst rp' hp'.
  unfold fetch_row.
  destruct (download_emits w ui rp 3 3 0 tr) as [evs [Ed Fd]]; [lia|].
  destruct (download_github_file w ui rp 0 3 tr) as [tr1 ok].
  simpl in Ed, Hf. subst tr1 ok.
  unfold after_download, random_uniform_1_2, sleep. simpl.
  set (u := uniform w (length (tr ++ evs))).
  exists (evs ++ [EvUniform u] ++ [EvSleep u]).
  split; [repeat rewrite <- app_assoc; reflexivity|].
  forall_events; auto.
Qed.

Lemma failed_fetch_is_not_copied_witness :
  is_open_source (row_license row_file) = true /\
  snd (download_github_file (world_status 404) info_file
         (lit ".myob/downloads/tooling/My-Tool/tool.py") 0 3 []) = false /\
  exists evs,
    fst (process_row (world_status 404) config_default row_file
                     zero_stats [])
    = [] ++ evs /\
    Forall (fun e => ~ copy_event e) evs.
Proof.
  split; [reflexivity|]. split; [reflexivity|].
  apply (failed_fetch_is_not_copied
           (world_status 404) config_default row_file zero_stats []
           info_file (lit ".myob/downloads/tooling/My-Tool/tool.py")
           (Some (lit "resources/tooling/My-Tool/tool.py")));
    reflexivity.
Defined.
